(** * Ingress report generator: a shallow embedding of
    [generate_ingress_reports.py] and the properties of its extractor,
    reporter, orchestrator and top-level driver. *)

From Stdlib Require Import ZArith Ascii String List Bool Lia.
From stdpp Require Import base tactics option list gmap strings pretty.

Local Open Scope Z_scope.
Local Open Scope stdpp_scope.

(** ** Python values as [json.load] builds them *)

(** A float is carried by the text [str()] prints for it, which always has a
    first character; the program never does anything with a float but print
    it. A dict is the list of its entries in insertion order; [dict_lookup]
    reads the first entry of a key, and the dicts [json.load] builds have
    each key once. *)
#[warnings="-register-all"]
Inductive json : Type :=
| JNull
| JBool (b : bool)
| JInt (n : Z)
| JFloat (c : ascii) (cs : string)
| JStr (s : string)
| JArr (items : list json)
| JObj (fields : list (string * json)).

(** The exceptions the program can meet. *)
Inductive exn : Set :=
| KeyError
| TypeError
| AttributeError
| FileNotFoundError
| PermissionError
| IsADirectoryError
| JSONDecodeError
| UnicodeDecodeError
| OSError.

#[global] Instance exn_eq_dec : EqDecision exn.
Proof. solve_decision. Defined.

(** An expression either has a value or raises. *)
Inductive result (A : Type) : Type :=
| Ok (a : A)
| Raise (e : exn).
Arguments Ok {A} a.
Arguments Raise {A} e.

#[global] Instance result_ret : MRet result := fun A a => Ok a.
#[global] Instance result_bind : MBind result := fun A B f m =>
  match m with
  | Ok a => f a
  | Raise e => Raise e
  end.

Fixpoint result_mapM {A B} (f : A → result B) (l : list A) : result (list B) :=
  match l with
  | [] => Ok []
  | x :: tl => y ← f x; ys ← result_mapM f tl; Ok (y :: ys)
  end.

(** [for x in l: acc = f(x, acc)], stopping at the first exception. *)
Fixpoint result_foldM {A S} (f : A → S → result S) (l : list A) (acc : S)
  : result S :=
  match l with
  | [] => Ok acc
  | x :: tl => acc' ← f x acc; result_foldM f tl acc'
  end.

(** ** String operations of Python used by the program *)

Definition nl : string := String (ascii_of_nat 10) "".

(** [sep.join(l)] on a list of strings. *)
Definition str_join (sep : string) (l : list string) : string :=
  String.concat sep l.

(** [not s] for a string. *)
Definition str_empty (s : string) : bool :=
  match s with "" => true | String _ _ => false end.

(** [needle in hay] for strings: the substring test. *)
Fixpoint str_in (needle hay : string) : bool :=
  String.prefix needle hay ||
  match hay with
  | "" => false
  | String _ tl => str_in needle tl
  end.

(** [s.endswith(suffix)]. *)
Fixpoint endswith (s suffix : string) : bool :=
  String.eqb s suffix ||
  match s with
  | "" => false
  | String _ tl => endswith tl suffix
  end.

(** [s.split(sep)] for a separator of one character. *)
Fixpoint str_split (sep : ascii) (s : string) : list string :=
  match s with
  | "" => [""]
  | String c tl =>
      if Ascii.eqb c sep then "" :: str_split sep tl
      else match str_split sep tl with
           | [] => [String c ""]
           | w :: ws => String c w :: ws
           end
  end.

(** [s.split(sep)[0]]; the list is never empty, so the index never fails. *)
Definition split_first (sep : ascii) (s : string) : string :=
  hd "" (str_split sep s).

Fixpoint chars (s : string) : list string :=
  match s with
  | "" => []
  | String c tl => String c "" :: chars tl
  end.

(** ** Dict, subscript, iteration and membership *)

Fixpoint dict_lookup (k : string) (fields : list (string * json)) : option json :=
  match fields with
  | [] => None
  | (k', v) :: tl => if String.eqb k k' then Some v else dict_lookup k tl
  end.

(** [v.get(k, default)]: only a dict has [get]. *)
Definition py_get (v : json) (k : string) (default : json) : result json :=
  match v with
  | JObj fields => Ok (from_option id default (dict_lookup k fields))
  | _ => Raise AttributeError
  end.

(** [v[k]] with a string key. *)
Definition py_getitem (v : json) (k : string) : result json :=
  match v with
  | JObj fields =>
      match dict_lookup k fields with
      | Some x => Ok x
      | None => Raise KeyError
      end
  | _ => Raise TypeError
  end.

(** What [for x in v] goes through: the elements of a list, the keys of a
    dict, the characters of a string; nothing else is iterable. *)
Definition py_iter (v : json) : result (list json) :=
  match v with
  | JArr items => Ok items
  | JObj fields => Ok (map (fun kv => JStr (fst kv)) fields)
  | JStr s => Ok (map JStr (chars s))
  | _ => Raise TypeError
  end.

(** [k in v] for a string [k]. *)
Definition py_contains (k : string) (v : json) : result bool :=
  match v with
  | JObj fields => Ok (bool_decide (is_Some (dict_lookup k fields)))
  | JArr items =>
      Ok (existsb (fun x => match x with JStr s => String.eqb k s | _ => false end)
                  items)
  | JStr s => Ok (str_in k s)
  | _ => Raise TypeError
  end.

(** [sep.join(vs)]: every element has to be a string. *)
Definition as_str (v : json) : result string :=
  match v with
  | JStr s => Ok s
  | _ => Raise TypeError
  end.

Definition py_join (sep : string) (vs : list json) : result string :=
  parts ← result_mapM as_str vs; Ok (str_join sep parts).

(** ** Output and the effects of a run *)

(** What a run leaves behind, in order. The constructors stand for the
    messages of the source; their arguments are the values the message is
    formatted with. *)
Inductive event : Type :=
| LogExtracting (namespace name : json)      (* logging.info, line 35 *)
| WarnHosts (name namespace : json)          (* logging.warning, line 42 *)
| WarnAddress (name namespace : json)        (* logging.warning, line 49 *)
| WarnPorts (name namespace : json)          (* logging.warning, line 64 *)
| MakeDirs (path : string)                   (* os.makedirs, line 98 *)
| WriteFile (path content : string)          (* open 'w' and write, lines 83-84 *)
| PrintCreated (cluster_name : string)       (* line 86 *)
| PrintMissed (names : string)               (* line 124 *)
| PrintAllProcessed                          (* line 126 *)
| PrintSummaryHeader                         (* line 129 *)
| PrintIssue (cluster_name : string) (namespace name : json) (hosts : string)
                                             (* line 140 *)
| PrintHinweis                               (* line 142 *)
| PrintDirMissing (e : exn) (dir : string).  (* line 155 *)

(** A computation that prints, logs and writes, and then has a value or
    raises; what was emitted before an exception stays emitted. *)
Record traced (A : Type) : Type := Traced {
  trace : list event;
  outcome : result A
}.
Arguments Traced {A} trace outcome.
Arguments trace {A} t.
Arguments outcome {A} t.

#[global] Instance traced_ret : MRet traced := fun A a => Traced [] (Ok a).
#[global] Instance traced_bind : MBind traced := fun A B f m =>
  match outcome m with
  | Ok a => Traced (trace m ++ trace (f a)) (outcome (f a))
  | Raise e => Traced (trace m) (Raise e)
  end.

Definition emit (ev : event) : traced unit := Traced [ev] (Ok tt).
Definition lift {A} (r : result A) : traced A := Traced [] r.
Definition when (b : bool) (m : traced unit) : traced unit :=
  if b then m else mret tt.

Fixpoint traced_mapM {A B} (f : A → traced B) (l : list A) : traced (list B) :=
  match l with
  | [] => mret []
  | x :: tl => y ← f x; ys ← traced_mapM f tl; mret (y :: ys)
  end.

Fixpoint traced_foldM {A S} (f : A → S → traced S) (l : list A) (acc : S)
  : traced S :=
  match l with
  | [] => mret acc
  | x :: tl => acc' ← f x acc; traced_foldM f tl acc'
  end.

Definition for_each {A} (f : A → traced unit) (l : list A) : traced unit :=
  traced_foldM (fun x _ => f x) l tt.

(** ** What the program takes from Python and its libraries *)

(** [str_repr] is [repr] of a string (its quotes and escapes follow the
    Unicode tables). [set_iter] is the order in which a set of strings is
    gone through, which Python leaves open: every member once.
    [tabulate rows headers] is [tabulate(rows, headers, tablefmt="pipe")],
    [os_path_join] is [os.path.join] and [json_load] the parser behind
    [json.load]. *)
Class Runtime := {
  str_repr : string → string;
  set_iter : gset string → list string;
  set_iter_perm : ∀ X : gset string, set_iter X ≡ₚ elements X;
  tabulate : list (list json) → list string → string;
  os_path_join : string → string → string;
  json_load : string → result json
}.

Section Extractor.
Context {RT : Runtime}.

(** [repr(v)]. *)
Fixpoint py_repr (v : json) : string :=
  match v with
  | JNull => "None"
  | JBool b => if b then "True" else "False"
  | JInt n => pretty n
  | JFloat c cs => String c cs
  | JStr s => str_repr s
  | JArr items => "[" +:+ str_join ", " (map py_repr items) +:+ "]"
  | JObj fields =>
      "{" +:+ str_join ", "
               (map (fun kv => str_repr (fst kv) +:+ ": " +:+ py_repr (snd kv))
                    fields) +:+ "}"
  end.

(** [str(v)]: a string is itself, anything else prints as its [repr]. *)
Definition py_str (v : json) : string :=
  match v with
  | JStr s => s
  | _ => py_repr v
  end.

(** *** Hosts (line 38) *)

(** [item.get('spec', {}).get('rules', [])], as the loops go through it. *)
Definition item_rules (item : json) : result (list json) :=
  spec ← py_get item "spec" (JObj []);
  rules ← py_get spec "rules" (JArr []);
  py_iter rules.

Definition rule_host (rule : json) : result json :=
  py_get rule "host" (JStr "N/A").

(** The generator is run to its end before [join] looks at the types. *)
Definition item_hosts (item : json) : result string :=
  rules ← item_rules item;
  parts ← result_mapM rule_host rules;
  py_join ", " parts.

(** *** Address (line 45) *)

Definition item_lbs (item : json) : result (list json) :=
  status ← py_get item "status" (JObj []);
  lb ← py_get status "loadBalancer" (JObj []);
  ingress ← py_get lb "ingress" (JArr []);
  py_iter ingress.

Definition lb_ip (lb : json) : result json :=
  py_get lb "ip" (JStr "N/A").

Definition item_address (item : json) : result string :=
  lbs ← item_lbs item;
  parts ← result_mapM lb_ip lbs;
  py_join ", " parts.

(** *** Ports (lines 52 to 60) *)

Definition item_tls (item : json) : result bool :=
  spec ← py_get item "spec" (JObj []);
  py_contains "tls" spec.

Definition rule_paths (rule : json) : result (list json) :=
  http ← py_get rule "http" (JObj []);
  paths ← py_get http "paths" (JArr []);
  py_iter paths.

(** The value of [service_port] on line 57. *)
Definition path_number (path : json) : result json :=
  backend ← py_get path "backend" (JObj []);
  service ← py_get backend "service" (JObj []);
  port ← py_get service "port" (JObj []);
  py_get port "number" (JStr "80").

Definition add_path (path : json) (ports : gset string) : result (gset string) :=
  service_port ← path_number path;
  Ok (ports ∪ {[ py_str service_port ]}).

Definition add_rule (rule : json) (ports : gset string) : result (gset string) :=
  paths ← rule_paths rule;
  result_foldM add_path paths ports.

Definition item_ports (item : json) : result (gset string) :=
  tls ← item_tls item;
  rules ← item_rules item;
  result_foldM add_rule rules (if tls : bool then {[ "443" ]} else ∅).

(** Line 60. *)
Definition ports_to_str (ports : gset string) : string :=
  if decide (ports = ∅) then "80" else str_join ", " (set_iter ports).

Definition item_ports_str (item : json) : result string :=
  ports ← item_ports item; Ok (ports_to_str ports).

(** *** One item of the loop of [extract_ingress_info] (lines 32 to 66) *)

Definition extract_item (item : json) : traced (list json) :=
  metadata ← lift (py_getitem item "metadata");
  namespace ← lift (py_getitem metadata "namespace");
  metadata ← lift (py_getitem item "metadata");
  name ← lift (py_getitem metadata "name");
  emit (LogExtracting namespace name);;
  hosts ← lift (item_hosts item);
  when (str_in "N/A" hosts || str_empty hosts) (emit (WarnHosts name namespace));;
  address ← lift (item_address item);
  when (str_empty address) (emit (WarnAddress name namespace));;
  ports ← lift (item_ports item);
  let ports_str := ports_to_str ports in
  when (str_empty ports_str) (emit (WarnPorts name namespace));;
  mret [namespace; name; JStr hosts; JStr address; JStr ports_str].

Definition extract_ingress_info (json_data : json) : traced (list (list json)) :=
  items ← lift (py_getitem json_data "items");
  items ← lift (py_iter items);
  traced_mapM extract_item items.

End Extractor.

(** ** The files and the clock a run sees *)

(** The input files do not change during a run. [open_read] is opening a
    path and reading its text, [open_write] opening a path for writing.
    Writing into a file that could be opened, and printing, are taken to go
    through: what a run does when they raise is outside this model. *)
Record world : Type := World {
  os_path_exists : string → bool;
  os_makedirs : string → result unit;
  os_listdir : string → result (list string);
  open_read : string → result string;
  open_write : string → result unit;
  today_date : string
}.

(** How a process ends. *)
Inductive exit : Type :=
| ExitNormal
| Traceback (e : exn).

Definition EXPECTED_CLUSTERS : gset string := {[ "cluster1"; "cluster2" ]}.

Section Orchestrator.
Context {RT : Runtime}.
Variable w : world.

Definition read_json_file (file_path : string) : result json :=
  text ← open_read w file_path; json_load text.

Definition headers : list string :=
  ["Namespace"; "Name"; "Hosts"; "Address"; "Ports"].

Definition markdown_content (ingress_info : list (list json))
    (cluster_name : string) : string :=
  "# Ingress Summary for Cluster: " +:+ cluster_name +:+ nl +:+ nl +:+
  tabulate ingress_info headers +:+ nl.

Definition output_file (output_dir cluster_name : string) : string :=
  os_path_join output_dir (cluster_name +:+ "_ingress.md").

Definition generate_markdown_table (ingress_info : list (list json))
    (cluster_name output_dir : string) : traced unit :=
  let markdown := markdown_content ingress_info cluster_name in
  lift (open_write w (output_file output_dir cluster_name));;
  emit (WriteFile (output_file output_dir cluster_name) markdown);;
  emit (PrintCreated cluster_name).

Definition is_snapshot (filename : string) : bool :=
  endswith filename "_ingress.json".

Definition cluster_name_of (filename : string) : string :=
  split_first "_" filename.

Definition cluster_prefix_of (cluster_name : string) : string :=
  split_first "-" cluster_name.

(** The body of the loop of lines 103 to 119. *)
Definition process_file (info_cache_dir results_dir filename : string)
    (processed_clusters : gset string) : traced (gset string) :=
  if is_snapshot filename then
    let cluster_name := cluster_name_of filename in
    let file_path := os_path_join info_cache_dir filename in
    let cluster_prefix := cluster_prefix_of cluster_name in
    let processed_clusters := processed_clusters ∪ {[ cluster_prefix ]} in
    json_data ← lift (read_json_file file_path);
    ingress_info ← extract_ingress_info json_data;
    generate_markdown_table ingress_info cluster_name results_dir;;
    mret processed_clusters
  else mret processed_clusters.

(** Lines 122 to 126. *)
Definition report_missed (processed_clusters : gset string) : traced unit :=
  let missed_clusters := EXPECTED_CLUSTERS ∖ processed_clusters in
  if decide (missed_clusters = ∅) then emit PrintAllProcessed
  else emit (PrintMissed (str_join ", " (set_iter missed_clusters))).

(** Lines 136 to 140. *)
Definition summary_item (cluster_name : string) (item : json) : traced unit :=
  metadata ← lift (py_getitem item "metadata");
  namespace ← lift (py_getitem metadata "namespace");
  metadata ← lift (py_getitem item "metadata");
  name ← lift (py_getitem metadata "name");
  hosts ← lift (item_hosts item);
  when (str_in "N/A" hosts || str_empty hosts)
       (emit (PrintIssue cluster_name namespace name hosts)).

(** The body of the loop of lines 130 to 140. *)
Definition summary_file (info_cache_dir filename : string) : traced unit :=
  if is_snapshot filename then
    let cluster_name := cluster_name_of filename in
    let file_path := os_path_join info_cache_dir filename in
    json_data ← lift (read_json_file file_path);
    items ← lift (py_getitem json_data "items");
    items ← lift (py_iter items);
    for_each (summary_item cluster_name) items
  else mret tt.

(** Lines 97 and 98. *)
Definition ensure_dir (results_dir : string) : traced unit :=
  if os_path_exists w results_dir then mret tt
  else (lift (os_makedirs w results_dir);; emit (MakeDirs results_dir)).

Definition process_all_clusters (info_cache_dir results_dir : string)
  : traced unit :=
  ensure_dir results_dir;;
  filenames ← lift (os_listdir w info_cache_dir);
  processed_clusters ← traced_foldM (process_file info_cache_dir results_dir)
                                    filenames ∅;
  report_missed processed_clusters;;
  emit PrintSummaryHeader;;
  filenames ← lift (os_listdir w info_cache_dir);
  for_each (summary_file info_cache_dir) filenames;;
  emit PrintHinweis.

Definition INFO_CACHE_DIR : string := "info_cache_" +:+ today_date w.
Definition RESULTS_DIR : string := "results".

(** The [try] of lines 150 to 155: [FileNotFoundError] is handled, anything
    else ends the process with a traceback. *)
Definition main : list event * exit :=
  let run := process_all_clusters INFO_CACHE_DIR RESULTS_DIR in
  match outcome run with
  | Ok _ => (trace run, ExitNormal)
  | Raise FileNotFoundError =>
      (trace run ++ [PrintDirMissing FileNotFoundError INFO_CACHE_DIR], ExitNormal)
  | Raise e => (trace run, Traceback e)
  end.

(** The files under the output paths once the writes of a trace are done:
    opening with 'w' replaces what the path held. *)
Fixpoint files_after (t : list event) (fs : gmap string string)
  : gmap string string :=
  match t with
  | [] => fs
  | WriteFile path content :: t' => files_after t' (<[path := content]> fs)
  | _ :: t' => files_after t' fs
  end.

End Orchestrator.

(** ** Notions the properties are stated with *)

(** [needle] occurs somewhere in [hay]. *)
Definition contains (needle hay : string) : Prop :=
  ∃ pre post, hay = pre +:+ needle +:+ post.

(** The character [c] occurs in [s]. *)
Fixpoint has_char (c : ascii) (s : string) : Prop :=
  match s with
  | "" => False
  | String c' tl => c' = c ∨ has_char c tl
  end.

Definition is_str (v : json) : Prop := ∃ s, v = JStr s.

(** A dict that has no entry for [key]. *)
Definition lacks (key : string) (v : json) : Prop :=
  ∃ fields, v = JObj fields ∧ dict_lookup key fields = None.

(** A dict whose entry for [key] is [x]. *)
Definition has_entry (key : string) (x : json) (v : json) : Prop :=
  ∃ fields, v = JObj fields ∧ dict_lookup key fields = Some x.

(** All HTTP paths of an item, rule after rule, and the values of
    [service_port] they give on line 57. *)
Definition item_paths (item : json) : result (list json) :=
  rules ← item_rules item;
  pss ← result_mapM rule_paths rules;
  Ok (concat pss).

Definition item_numbers (item : json) : result (list json) :=
  paths ← item_paths item;
  result_mapM path_number paths.

Definition hosts_warning (ev : event) : Prop := ∃ name ns, ev = WarnHosts name ns.
Definition address_warning (ev : event) : Prop := ∃ name ns, ev = WarnAddress name ns.
Definition ports_warning (ev : event) : Prop := ∃ name ns, ev = WarnPorts name ns.

(** The clusters a trace reports as created, and the files it writes. *)
Definition created (t : list event) : list string :=
  omap (fun ev => match ev with PrintCreated c => Some c | _ => None end) t.

Definition written (t : list event) : list (string * string) :=
  omap (fun ev => match ev with WriteFile p c => Some (p, c) | _ => None end) t.

(** The verdict on the expected clusters (lines 124 and 126). *)
Definition is_verdict (ev : event) : bool :=
  match ev with
  | PrintMissed _ | PrintAllProcessed => true
  | _ => false
  end.

(** The namespace and the name of an item (lines 32 and 33). *)
Definition item_meta (item : json) : result (json * json) :=
  metadata ← py_getitem item "metadata";
  namespace ← py_getitem metadata "namespace";
  name ← py_getitem metadata "name";
  Ok (namespace, name).

(** The warnings of one item, as lines 41, 48 and 63 decide them. *)
Definition item_warnings (ns nm : json) (hosts address ports_str : string)
  : list event :=
  (if str_in "N/A" hosts || str_empty hosts then [WarnHosts nm ns] else []) ++
  (if str_empty address then [WarnAddress nm ns] else []) ++
  (if str_empty ports_str then [WarnPorts nm ns] else []).

(** The kinds of events: what the extractor logs, and what the summary
    pass prints. *)
Definition is_log (ev : event) : bool :=
  match ev with
  | LogExtracting _ _ | WarnHosts _ _ | WarnAddress _ _ | WarnPorts _ _ => true
  | _ => false
  end.

Definition is_issue (ev : event) : bool :=
  match ev with
  | PrintIssue _ _ _ _ => true
  | _ => false
  end.

(** Events that are neither a created report, nor a write, nor a verdict. *)
Definition is_quiet (ev : event) : bool :=
  match ev with
  | PrintCreated _ | WriteFile _ _ | PrintMissed _ | PrintAllProcessed => false
  | _ => true
  end.

(** The items the loop of line 31 goes through. *)
Definition doc_items (json_data : json) : result (list json) :=
  items ← py_getitem json_data "items";
  py_iter items.

(** The report the first pass writes for a snapshot: its path and text. *)
Definition report_of {RT : Runtime} (w : world) (info_cache_dir results_dir : string)
    (filename : string) (report : string * string) : Prop :=
  ∃ json_data rows,
    read_json_file w (os_path_join info_cache_dir filename) = Ok json_data ∧
    outcome (extract_ingress_info json_data) = Ok rows ∧
    report = (output_file results_dir (cluster_name_of filename),
              markdown_content rows (cluster_name_of filename)).

(** The cluster groups the snapshots of a listing stand for. *)
Definition processed_prefixes (filenames : list string) : gset string :=
  list_to_set (map (fun f => cluster_prefix_of (cluster_name_of f))
                   (List.filter is_snapshot filenames)).

(** What lines 122 to 126 print for a set of processed groups. *)
Definition verdict {RT : Runtime} (processed : gset string) : event :=
  if decide (EXPECTED_CLUSTERS ∖ processed = ∅) then PrintAllProcessed
  else PrintMissed (str_join ", " (set_iter (EXPECTED_CLUSTERS ∖ processed))).

(** The output directory is there, or can be made. *)
Definition dir_ready (w : world) (results_dir : string) : Prop :=
  os_path_exists w results_dir = true ∨ os_makedirs w results_dir = Ok tt.

(** ** A small runtime and documents to run the model on *)

Module Sample.

Definition cell_text (v : json) : string :=
  match v with JStr s => s | _ => "?" end.

(** The text of a snapshot without items. *)
Definition empty_snapshot : string :=
  let dq := String (ascii_of_nat 34) "" in
  "{" +:+ dq +:+ "items" +:+ dq +:+ ": []}".

(** The text of a snapshot with one item that has its metadata only. *)
Definition one_item_snapshot : string :=
  let dq := String (ascii_of_nat 34) "" in
  let q s := dq +:+ s +:+ dq in
  "{" +:+ q "items" +:+ ": [{" +:+ q "metadata" +:+ ": {" +:+
  q "namespace" +:+ ": " +:+ q "default" +:+ ", " +:+
  q "name" +:+ ": " +:+ q "web" +:+ "}}]}".

(** Python is stood in for by the simplest choices: single quotes for
    [repr], the order of [elements] for sets, one line per row for the
    table and a slash between directory and name. *)
Definition runtime : Runtime := {|
  str_repr s := "'" +:+ s +:+ "'";
  set_iter := elements;
  set_iter_perm := fun X => reflexivity (elements X);
  tabulate rows hdrs :=
    str_join nl (map (fun cells => "| " +:+ str_join " | " cells +:+ " |")
                     (hdrs :: map (map cell_text) rows));
  os_path_join dir name := dir +:+ "/" +:+ name;
  json_load text :=
    if String.eqb text empty_snapshot then Ok (JObj [("items", JArr [])])
    else if String.eqb text one_item_snapshot then
      Ok (JObj [("items", JArr [JObj [("metadata",
            JObj [("namespace", JStr "default"); ("name", JStr "web")])]])])
    else Raise JSONDecodeError
|}.

Definition meta (ns nm : json) : string * json :=
  ("metadata", JObj [("namespace", ns); ("name", nm)]).

Definition path_to (number : json) : json :=
  JObj [("backend", JObj [("service", JObj [("port", JObj [("number", number)])])])].

(** Two rules with hosts, three paths on two ports, one address. *)
Definition item_web : json :=
  JObj [meta (JStr "default") (JStr "web");
        ("spec", JObj [("rules", JArr [
           JObj [("host", JStr "a.example");
                 ("http", JObj [("paths", JArr [path_to (JInt 8080);
                                                 path_to (JInt 80);
                                                 path_to (JInt 8080)])])];
           JObj [("host", JStr "b.example")]])]);
        ("status", JObj [("loadBalancer", JObj [("ingress", JArr [
           JObj [("ip", JStr "10.0.0.1")]])])])].

(** A rule without a host and a load balancer entry without an ip. *)
Definition item_placeholders : json :=
  JObj [meta (JStr "default") (JStr "bare");
        ("spec", JObj [("tls", JArr []); ("rules", JArr [JObj []])]);
        ("status", JObj [("loadBalancer", JObj [("ingress", JArr [JObj []])])])].

(** A path whose port number is the empty string. *)
Definition item_empty_port : json :=
  JObj [meta (JStr "default") (JStr "odd");
        ("spec", JObj [("rules", JArr [
           JObj [("host", JStr "a.example");
                 ("http", JObj [("paths", JArr [path_to (JStr "")])])]])])].

(** One rule whose host is the empty string. *)
Definition item_empty_host : json :=
  JObj [meta (JStr "default") (JStr "nohost");
        ("spec", JObj [("rules", JArr [JObj [("host", JStr "")]])])].

(** A namespace that is a number. *)
Definition item_number_namespace : json :=
  JObj [meta (JInt 7) (JStr "web")].

Definition doc (items : list json) : json := JObj [("items", JArr items)].

(** A world in which [results] has to be made, every write goes through,
    and the input directory and its files are as given. *)
Definition world_with (listing : result (list string))
    (read : string → result string) : world := {|
  os_path_exists _ := false;
  os_makedirs _ := Ok tt;
  os_listdir _ := listing;
  open_read := read;
  open_write _ := Ok tt;
  today_date := "20240101"
|}.

(** Two snapshots without items, of the two expected groups, and a file
    that is no snapshot. *)
Definition world_two : world :=
  world_with (Ok ["cluster1-a_ingress.json"; "notes.txt"; "cluster2-b_ingress.json"])
             (fun _ => Ok empty_snapshot).

(** Two snapshots whose names give the same cluster name. *)
Definition world_collide : world :=
  world_with (Ok ["a_ingress.json"; "a_b_ingress.json"])
             (fun path => if endswith path "a_b_ingress.json"
                          then Ok empty_snapshot else Ok one_item_snapshot).

(** No input directory. *)
Definition world_no_dir : world :=
  world_with (Raise FileNotFoundError) (fun _ => Raise FileNotFoundError).

(** The input directory is there and lists a snapshot that cannot be
    opened because it does not exist (a link to nowhere). *)
Definition world_dangling : world :=
  world_with (Ok ["c_ingress.json"]) (fun _ => Raise FileNotFoundError).

(** A snapshot that is not JSON. *)
Definition world_bad_json : world :=
  world_with (Ok ["c_ingress.json"]) (fun _ => Ok "oops").

End Sample.

(** ** Further notions: kinds of values, of paths and of events *)

Definition is_dict (v : json) : Prop := ∃ fields, v = JObj fields.

(** A rule [join] accepts: a dict without host, or with a host string. *)
Definition host_joinable (rule : json) : Prop :=
  lacks "host" rule ∨ ∃ s, has_entry "host" (JStr s) rule.

(** A path that names no port number: one of the four lookups of line 57
    finds no entry. *)
Definition names_no_port (path : json) : Prop :=
  lacks "backend" path ∨
  (∃ backend, has_entry "backend" backend path ∧
     (lacks "service" backend ∨
      ∃ service, has_entry "service" service backend ∧
        (lacks "port" service ∨
         ∃ port, has_entry "port" port service ∧ lacks "number" port))).

(** The items a trace warns about for their hosts (line 42), and the items
    its summary lists (line 140), each as namespace and name. *)
Definition hosts_warned (t : list event) : list (json * json) :=
  omap (fun ev => match ev with WarnHosts nm ns => Some (ns, nm) | _ => None end) t.

Definition issues_listed (t : list event) : list (json * json) :=
  omap (fun ev => match ev with PrintIssue _ ns nm _ => Some (ns, nm) | _ => None end) t.

(** What the first pass and making the output directory can emit. *)
Definition is_first_pass (ev : event) : bool :=
  match ev with
  | LogExtracting _ _ | WarnHosts _ _ | WarnAddress _ _ | WarnPorts _ _
  | MakeDirs _ | WriteFile _ _ | PrintCreated _ => true
  | _ => false
  end.

(** The last character of a string. *)
Fixpoint last_char (s : string) : option ascii :=
  match s with
  | "" => None
  | String c "" => Some c
  | String _ tl => last_char tl
  end.

(** The name of the report of a cluster, before the directory is put in
    front (line 82). *)
Definition report_name (cluster_name : string) : string :=
  cluster_name +:+ "_ingress.md".

(** ** Laws of the two monads *)

Lemma result_bind_ok {A B} (m : result A) (f : A → result B) (b : B) :
  m ≫= f = Ok b ↔ ∃ a, m = Ok a ∧ f a = Ok b.
Proof.
  destruct m as [a|e]; simpl; split.
  - intros H. exists a. auto.
  - intros (a' & Ha & Hf). congruence.
  - discriminate.
  - intros (a' & Ha & _). discriminate.
Qed.

Lemma result_bind_raise {A B} (m : result A) (f : A → result B) (e : exn) :
  m ≫= f = Raise e ↔ m = Raise e ∨ ∃ a, m = Ok a ∧ f a = Raise e.
Proof.
  destruct m as [a|e']; simpl; split.
  - intros H. right. eauto.
  - intros [H|(a' & Ha & Hf)]; congruence.
  - intros H. left. congruence.
  - intros [H|(a' & Ha & _)]; congruence.
Qed.

Lemma traced_bind_ok_eq {A B} (m : traced A) (f : A → traced B) (a : A) :
  outcome m = Ok a →
  m ≫= f = Traced (trace m ++ trace (f a)) (outcome (f a)).
Proof. intros H. unfold mbind, traced_bind. rewrite H. reflexivity. Qed.

Lemma traced_bind_raise_eq {A B} (m : traced A) (f : A → traced B) (e : exn) :
  outcome m = Raise e → m ≫= f = Traced (trace m) (Raise e).
Proof. intros H. unfold mbind, traced_bind. rewrite H. reflexivity. Qed.

Lemma traced_bind_outcome_ok {A B} (m : traced A) (f : A → traced B) (b : B) :
  outcome (m ≫= f) = Ok b ↔ ∃ a, outcome m = Ok a ∧ outcome (f a) = Ok b.
Proof.
  unfold mbind, traced_bind.
  destruct (outcome m) as [a|e] eqn:E; simpl; split.
  - eauto.
  - intros (a' & Ha & Hf). congruence.
  - discriminate.
  - intros (a' & Ha & _). discriminate.
Qed.

Lemma lift_bind_ok {A B} (a : A) (f : A → traced B) :
  lift (Ok a) ≫= f = f a.
Proof. unfold mbind, traced_bind, lift. simpl. by destruct (f a). Qed.

Lemma lift_bind_raise {A B} (e : exn) (f : A → traced B) :
  lift (Raise e) ≫= f = Traced [] (Raise e).
Proof. reflexivity. Qed.

Lemma emit_bind {B} (ev : event) (f : unit → traced B) :
  emit ev ≫= f = Traced (ev :: trace (f tt)) (outcome (f tt)).
Proof. reflexivity. Qed.

Lemma mret_bind_traced {A B} (a : A) (f : A → traced B) :
  (mret a : traced A) ≫= f = f a.
Proof. unfold mbind, traced_bind, mret, traced_ret. simpl. by destruct (f a). Qed.

(** ** Strings *)

(** [+:+] does not unfold under [simpl]; these two equations move it. *)
Lemma append_nil_l (s : string) : "" +:+ s = s.
Proof. reflexivity. Qed.

Lemma append_cons c (s t : string) : String c s +:+ t = String c (s +:+ t).
Proof. reflexivity. Qed.

Ltac norm_app := rewrite ?append_cons, ?append_nil_l in *.

Section StringFacts.
Implicit Types s t pre post : string.

Lemma append_nil_r s : s +:+ "" = s.
Proof.
  induction s as [|c s IH]; [reflexivity|]. by rewrite append_cons, IH.
Qed.

Lemma append_assoc s t u : (s +:+ t) +:+ u = s +:+ t +:+ u.
Proof.
  induction s as [|c s IH]; [reflexivity|]. by rewrite !append_cons, IH.
Qed.

Lemma append_eq_empty s t : s +:+ t = "" → s = "" ∧ t = "".
Proof. destruct s; norm_app; [auto | discriminate]. Qed.

Lemma str_empty_true s : str_empty s = true ↔ s = "".
Proof. destruct s; simpl; split; congruence. Qed.

Lemma str_empty_false s : str_empty s = false ↔ s ≠ "".
Proof. destruct s; simpl; split; congruence. Qed.

Lemma prefix_app s t : String.prefix s t = true ↔ ∃ post, t = s +:+ post.
Proof.
  revert t. induction s as [|c s IH]; intros t.
  - split; [intros _; by exists t | by destruct t].
  - destruct t as [|d t]; simpl.
    + split; [discriminate | intros [post H]; discriminate].
    + destruct (ascii_dec c d) as [->|Hne].
      * rewrite IH. split; intros [post H]; exists post; norm_app; congruence.
      * split; [discriminate | intros [post H]; norm_app; congruence].
Qed.

Lemma contains_cons needle c hay :
  contains needle (String c hay) ↔
  String.prefix needle (String c hay) = true ∨ contains needle hay.
Proof.
  rewrite prefix_app. split.
  - intros ([|d pre] & post & H); norm_app.
    + left. by exists post.
    + right. exists pre, post. congruence.
  - intros [[post H]|(pre & post & H)].
    + exists "", post. exact H.
    + exists (String c pre), post. norm_app. by rewrite H.
Qed.

Lemma str_in_contains needle hay : str_in needle hay = true ↔ contains needle hay.
Proof.
  induction hay as [|c hay IH].
  - cbn [str_in]. rewrite orb_false_r, prefix_app. split.
    + intros [post H]. by exists "", post.
    + intros (pre & post & H). symmetry in H.
      apply append_eq_empty in H as [-> H]. exists post. norm_app. by rewrite H.
  - rewrite contains_cons. cbn [str_in]. rewrite orb_true_iff, IH. reflexivity.
Qed.

Lemma contains_refl s : contains s s.
Proof. exists "", "". norm_app. by rewrite append_nil_r. Qed.

Lemma contains_app_l needle s t : contains needle t → contains needle (s +:+ t).
Proof.
  intros (pre & post & ->). exists (s +:+ pre), post. by rewrite append_assoc.
Qed.

Lemma contains_app_r needle s t : contains needle s → contains needle (s +:+ t).
Proof.
  intros (pre & post & ->). exists pre, (post +:+ t).
  by rewrite !append_assoc.
Qed.

Lemma endswith_app s suffix : endswith s suffix = true ↔ ∃ pre, s = pre +:+ suffix.
Proof.
  induction s as [|c s IH]; cbn [endswith]; rewrite orb_true_iff, String.eqb_eq.
  - split.
    + intros [<-|?]; [by exists "" | discriminate].
    + intros [pre H]. symmetry in H. apply append_eq_empty in H as [_ ->]. by left.
  - rewrite IH. split.
    + intros [<-|[pre ->]]; [by exists "" | by exists (String c pre)].
    + intros [[|d pre] H]; norm_app; [by left | right].
      exists pre. congruence.
Qed.

(** [split(sep)[0]] is what stands before the first separator. *)
Lemma str_split_nonempty sep s : str_split sep s ≠ [].
Proof.
  destruct s as [|c s]; simpl; [discriminate|].
  destruct (Ascii.eqb c sep); [discriminate|].
  destruct (str_split sep s); discriminate.
Qed.

Lemma split_first_cons sep c s :
  split_first sep (String c s) =
  if Ascii.eqb c sep then "" else String c (split_first sep s).
Proof.
  unfold split_first. simpl. destruct (Ascii.eqb c sep); [reflexivity|].
  pose proof (str_split_nonempty sep s).
  destruct (str_split sep s); [congruence | reflexivity].
Qed.

Lemma split_first_no_sep sep s : ¬ has_char sep (split_first sep s).
Proof.
  induction s as [|c s IH]; [simpl; tauto|].
  rewrite split_first_cons. destruct (Ascii.eqb_spec c sep); simpl; tauto.
Qed.

Lemma split_first_spec sep s :
  (¬ has_char sep s ∧ split_first sep s = s) ∨
  (∃ rest, s = split_first sep s +:+ String sep rest).
Proof.
  induction s as [|c s IH]; [left; simpl; tauto|].
  rewrite split_first_cons. destruct (Ascii.eqb_spec c sep) as [->|Hne].
  - right. by exists s.
  - destruct IH as [[Hno Heq]|[rest Heq]].
    + left. simpl. rewrite Heq. split; [tauto | reflexivity].
    + right. exists rest. norm_app. by rewrite <- Heq.
Qed.

Lemma has_char_app c s t : has_char c (s +:+ t) ↔ has_char c s ∨ has_char c t.
Proof.
  induction s as [|d s IH]; norm_app; simpl; [tauto | rewrite IH; tauto].
Qed.

(** [", ".join]. *)
Lemma str_join_cons sep x y l :
  str_join sep (x :: y :: l) = x +:+ sep +:+ str_join sep (y :: l).
Proof. reflexivity. Qed.

Lemma str_join_empty_iff sep l :
  sep ≠ "" → (str_join sep l = "" ↔ l = [] ∨ l = [""]).
Proof.
  intros Hsep. destruct l as [|x [|y l]].
  - simpl. split; auto.
  - simpl. split; [intros ->; auto | intros [?|?]; congruence].
  - rewrite str_join_cons. split.
    + intros H. apply append_eq_empty in H as [_ H].
      apply append_eq_empty in H as [H _]. contradiction.
    + intros [?|?]; discriminate.
Qed.

Lemma contains_join sep x l : x ∈ l → contains x (str_join sep l).
Proof.
  induction l as [|y l IH]; [by intros ?%elem_of_nil|].
  intros [->|Hin]%elem_of_cons.
  - destruct l as [|z l]; [apply contains_refl|].
    rewrite str_join_cons. apply contains_app_r, contains_refl.
  - destruct l as [|z l]; [by apply elem_of_nil in Hin|].
    rewrite str_join_cons. by apply contains_app_l, contains_app_l, IH.
Qed.

End StringFacts.

(** Python's [str] of an integer has at least one character. *)
Lemma pretty_N_go_length (x : N) s :
  (String.length s ≤ String.length (pretty_N_go x s))%nat.
Proof.
  revert s. induction (N.lt_wf_0 x) as [x _ IH]; intros s.
  destruct (decide (x = 0)%N) as [->|Hx].
  - by rewrite pretty_N_go_0.
  - rewrite pretty_N_go_step by lia.
    etrans; [|apply IH; apply N.div_lt; lia]. simpl. lia.
Qed.

Lemma pretty_N_nonempty (x : N) : pretty x ≠ "".
Proof.
  unfold pretty, pretty_N. case_decide as Hx; [discriminate|].
  rewrite pretty_N_go_step by lia.
  intros H.
  pose proof (pretty_N_go_length (x `div` 10)%N
                (String (pretty_N_char (x `mod` 10)%N) "")) as Hlen.
  rewrite H in Hlen. simpl in Hlen. lia.
Qed.

Lemma pretty_Z_nonempty (n : Z) : pretty n ≠ "".
Proof.
  destruct n as [|p|p]; unfold pretty, pretty_Z.
  - discriminate.
  - apply pretty_N_nonempty.
  - discriminate.
Qed.

(** ** The extractor, item by item *)

Lemma result_mapM_ok {A B} (f : A → result B) (l : list A) (ys : list B) :
  result_mapM f l = Ok ys ↔ Forall2 (fun x y => f x = Ok y) l ys.
Proof.
  revert ys. induction l as [|x l IH]; intros ys; simpl.
  - split.
    + intros [= <-]. constructor.
    + intros H. by inversion H.
  - rewrite result_bind_ok. split.
    + intros (y & Hy & H). apply result_bind_ok in H as (ys' & Hys & [= <-]).
      constructor; [exact Hy | by apply IH].
    + intros H. inversion H as [|? y ? ys' Hy Hys]; subst.
      exists y. split; [exact Hy|]. apply IH in Hys. by rewrite Hys.
Qed.

Lemma as_str_ok v s : as_str v = Ok s ↔ v = JStr s.
Proof. destruct v; simpl; split; congruence. Qed.

Lemma py_join_ok sep vs s :
  py_join sep vs = Ok s ↔ ∃ parts, vs = JStr <$> parts ∧ s = str_join sep parts.
Proof.
  unfold py_join. rewrite result_bind_ok. split.
  - intros (parts & Hparts & [= <-]). exists parts. split; [|reflexivity].
    apply result_mapM_ok in Hparts.
    induction Hparts as [|v p vs ps Hv _ IH]; [reflexivity|].
    apply as_str_ok in Hv. simpl. by rewrite Hv, IH.
  - intros (parts & -> & ->). exists parts. split; [|reflexivity].
    apply result_mapM_ok. induction parts; constructor; auto.
Qed.

(** The shape lines 38 and 45 share: go through a list, take a field of
    each element or the placeholder, join. *)
Lemma joined_ok (src : result (list json)) (f : json → result json) s :
  (l ← src; parts ← result_mapM f l; py_join ", " parts) = Ok s ↔
  ∃ l parts, src = Ok l ∧ Forall2 (fun x p => f x = Ok (JStr p)) l parts ∧
             s = str_join ", " parts.
Proof.
  rewrite result_bind_ok. split.
  - intros (l & Hl & H). apply result_bind_ok in H as (vs & Hvs & Hj).
    apply py_join_ok in Hj as (parts & -> & ->).
    exists l, parts. split_and!; [done| |done].
    apply result_mapM_ok in Hvs. by apply Forall2_fmap_r in Hvs.
  - intros (l & parts & Hl & Hparts & ->). exists l. split; [done|].
    apply result_bind_ok. exists (JStr <$> parts). split.
    + apply result_mapM_ok. by apply Forall2_fmap_r.
    + apply py_join_ok. eauto.
Qed.

Lemma item_hosts_ok item h :
  item_hosts item = Ok h ↔
  ∃ rules parts, item_rules item = Ok rules ∧
    Forall2 (fun r p => rule_host r = Ok (JStr p)) rules parts ∧
    h = str_join ", " parts.
Proof. apply joined_ok. Qed.

Lemma item_address_ok item a :
  item_address item = Ok a ↔
  ∃ lbs parts, item_lbs item = Ok lbs ∧
    Forall2 (fun lb p => lb_ip lb = Ok (JStr p)) lbs parts ∧
    a = str_join ", " parts.
Proof. apply joined_ok. Qed.

(** [v.get(key, 'N/A')] gives a string [p]: the entry itself, or the
    placeholder when there is none. *)
Lemma py_get_placeholder key v p :
  py_get v key (JStr "N/A") = Ok (JStr p) ↔
  has_entry key (JStr p) v ∨ (lacks key v ∧ p = "N/A").
Proof.
  unfold has_entry, lacks. destruct v; simpl;
    try (split; [discriminate | intros [(? & ? & _)|((? & ? & _) & _)]; discriminate]).
  destruct (dict_lookup key fields) as [x|] eqn:E; simpl; split.
  - intros [= ->]. left. eauto.
  - intros [(f & [= <-] & H)|((f & [= <-] & H) & _)]; congruence.
  - intros [= <-]. right. eauto.
  - intros [(f & [= <-] & H)|((f & [= <-] & H) & ->)]; congruence.
Qed.

Lemma py_get_lacks key v d : lacks key v → py_get v key d = Ok d.
Proof. intros (fields & -> & H). simpl. by rewrite H. Qed.

Lemma py_get_has_entry key v x d : has_entry key x v → py_get v key d = Ok x.
Proof. intros (fields & -> & H). simpl. by rewrite H. Qed.

Section ExtractItem.
Context {RT : Runtime}.

Lemma item_meta_ok item ns nm :
  item_meta item = Ok (ns, nm) ↔
  ∃ md, py_getitem item "metadata" = Ok md ∧
        py_getitem md "namespace" = Ok ns ∧ py_getitem md "name" = Ok nm.
Proof.
  unfold item_meta. rewrite result_bind_ok. split.
  - intros (md & Hmd & H). apply result_bind_ok in H as (ns' & Hns & H).
    apply result_bind_ok in H as (nm' & Hnm & [= <- <-]). eauto.
  - intros (md & Hmd & Hns & Hnm). exists md. split; [done|].
    rewrite Hns. simpl. by rewrite Hnm.
Qed.

(** A run of the loop body in which nothing raises. *)
Lemma extract_item_run item ns nm h a P :
  item_meta item = Ok (ns, nm) → item_hosts item = Ok h →
  item_address item = Ok a → item_ports item = Ok P →
  extract_item item =
  Traced (LogExtracting ns nm :: item_warnings ns nm h a (ports_to_str P))
         (Ok [ns; nm; JStr h; JStr a; JStr (ports_to_str P)]).
Proof.
  intros (md & Hmd & Hns & Hnm)%item_meta_ok Hh Ha HP.
  unfold extract_item, item_warnings.
  rewrite Hmd, Hh, Ha, HP.
  repeat progress rewrite ?Hns, ?Hnm, ?lift_bind_ok, ?emit_bind.
  destruct (str_in "N/A" h || str_empty h), (str_empty a),
    (str_empty (ports_to_str P)); reflexivity.
Qed.

(** A record comes out only of such a run. *)
Lemma extract_item_ok item row :
  outcome (extract_item item) = Ok row →
  ∃ ns nm h a P,
    item_meta item = Ok (ns, nm) ∧ item_hosts item = Ok h ∧
    item_address item = Ok a ∧ item_ports item = Ok P ∧
    row = [ns; nm; JStr h; JStr a; JStr (ports_to_str P)].
Proof.
  intros H.
  destruct (item_meta item) as [[ns nm]|e] eqn:Hmeta.
  - destruct (item_hosts item) as [h|e] eqn:Hh.
    + destruct (item_address item) as [a|e] eqn:Ha.
      * destruct (item_ports item) as [P|e] eqn:HP.
        -- rewrite (extract_item_run item ns nm h a P) in H by done.
           simpl in H. injection H as <-. by exists ns, nm, h, a, P.
        -- exfalso. apply item_meta_ok in Hmeta as (md & Hmd & Hns & Hnm).
           unfold extract_item in H.
           rewrite Hmd, Hh, Ha, HP in H.
           repeat progress rewrite ?Hns, ?Hnm, ?lift_bind_ok, ?emit_bind in H.
           destruct (str_in "N/A" h || str_empty h), (str_empty a); discriminate.
      * exfalso. apply item_meta_ok in Hmeta as (md & Hmd & Hns & Hnm).
        unfold extract_item in H.
        rewrite Hmd, Hh, Ha in H.
        repeat progress rewrite ?Hns, ?Hnm, ?lift_bind_ok, ?emit_bind in H.
        destruct (str_in "N/A" h || str_empty h); discriminate.
    + exfalso. apply item_meta_ok in Hmeta as (md & Hmd & Hns & Hnm).
      unfold extract_item in H.
      rewrite Hmd, Hh in H.
      repeat progress rewrite ?Hns, ?Hnm, ?lift_bind_ok, ?emit_bind in H.
      discriminate.
  - exfalso. unfold extract_item, item_meta in *.
    destruct (py_getitem item "metadata") as [md|]; [|discriminate].
    rewrite lift_bind_ok in H. simpl in Hmeta.
    destruct (py_getitem md "namespace") as [ns|]; [|discriminate].
    rewrite lift_bind_ok, lift_bind_ok in H. simpl in Hmeta.
    destruct (py_getitem md "name") as [nm|]; discriminate.
Qed.

End ExtractItem.

Section Warnings.
Context {RT : Runtime}.

(** What one item logs once its namespace, name and hosts are there: the
    later warnings are missing where a later step raises. *)
Lemma extract_item_trace item ns nm h :
  item_meta item = Ok (ns, nm) → item_hosts item = Ok h →
  trace (extract_item item) =
  LogExtracting ns nm ::
  (if str_in "N/A" h || str_empty h then [WarnHosts nm ns] else []) ++
  match item_address item with
  | Ok a =>
      (if str_empty a then [WarnAddress nm ns] else []) ++
      match item_ports item with
      | Ok P => if str_empty (ports_to_str P) then [WarnPorts nm ns] else []
      | Raise _ => []
      end
  | Raise _ => []
  end.
Proof.
  intros Hmeta Hh.
  destruct (item_address item) as [a|e] eqn:Ha;
    [destruct (item_ports item) as [P|e] eqn:HP|].
  - by rewrite (extract_item_run item ns nm h a P).
  - apply item_meta_ok in Hmeta as (md & Hmd & Hns & Hnm).
    unfold extract_item. rewrite Hmd, Hh, Ha, HP.
    repeat progress rewrite ?Hns, ?Hnm, ?lift_bind_ok, ?emit_bind.
    destruct (str_in "N/A" h || str_empty h), (str_empty a); reflexivity.
  - apply item_meta_ok in Hmeta as (md & Hmd & Hns & Hnm).
    unfold extract_item. rewrite Hmd, Hh, Ha.
    repeat progress rewrite ?Hns, ?Hnm, ?lift_bind_ok, ?emit_bind.
    destruct (str_in "N/A" h || str_empty h); reflexivity.
Qed.

End Warnings.

(** Which events of a trace are a given warning. *)
Ltac no_such_event H :=
  repeat (apply Exists_cons in H as [(? & ? & ?)|H]; [discriminate|]);
  by apply Exists_nil in H.

Ltac find_event :=
  repeat first [ apply Exists_cons_hd; by eexists _, _ | apply Exists_cons_tl ].

Lemma hosts_test_spec h :
  str_in "N/A" h || str_empty h = true ↔ h = "" ∨ contains "N/A" h.
Proof. rewrite orb_true_iff, str_in_contains, str_empty_true. tauto. Qed.

(** C3: the missing-hosts warning is logged exactly when the joined hosts
    string is empty or has "N/A" somewhere in it, and the missing-address
    warning exactly when the joined address string is empty; an address made
    of placeholders only is not empty and logs nothing. This holds for every
    item whose namespace, name and hosts the extractor could read, also when
    a later step of the item raises. *)
Theorem warning_conditions {RT : Runtime} item ns nm h :
  item_meta item = Ok (ns, nm) → item_hosts item = Ok h →
  (Exists hosts_warning (trace (extract_item item)) ↔
     h = "" ∨ contains "N/A" h) ∧
  (∀ a, item_address item = Ok a →
     (Exists address_warning (trace (extract_item item)) ↔ a = "") ∧
     (a ≠ "" → contains "N/A" a →
        ¬ Exists address_warning (trace (extract_item item)))).
Proof.
  intros Hmeta Hh. rewrite (extract_item_trace item ns nm h Hmeta Hh).
  rewrite <- hosts_test_spec. split.
  - destruct (str_in "N/A" h || str_empty h);
      destruct (item_address item) as [a|]; simpl;
      try destruct (str_empty a); simpl;
      try destruct (item_ports item) as [P|]; simpl;
      try destruct (str_empty (ports_to_str P)); simpl;
      (split; [intros HE; first [reflexivity | no_such_event HE]
              | intros ?; first [discriminate | find_event]]).
  - intros a [= ->].
    assert (Exists address_warning
              (LogExtracting ns nm ::
               (if str_in "N/A" h || str_empty h then [WarnHosts nm ns] else []) ++
               (if str_empty a then [WarnAddress nm ns] else []) ++
               match item_ports item with
               | Ok P => if str_empty (ports_to_str P) then [WarnPorts nm ns] else []
               | Raise _ => []
               end) ↔ a = "") as Hiff.
    { rewrite <- str_empty_true.
      destruct (str_in "N/A" h || str_empty h), (str_empty a); simpl;
        try destruct (item_ports item) as [P|]; simpl;
        try destruct (str_empty (ports_to_str P)); simpl;
        (split; [intros HE; first [reflexivity | no_such_event HE]
                | intros ?; first [discriminate | find_event]]). }
    split; [exact Hiff|]. intros Hne _. by rewrite Hiff.
Qed.

(** The witness of C3: a rule without host and a load balancer entry without
    ip give "N/A" twice; only the hosts warning is logged. *)
Lemma warning_conditions_witness :
  Exists hosts_warning
    (trace (extract_item (RT := Sample.runtime) Sample.item_placeholders)) ∧
  ¬ Exists address_warning
    (trace (extract_item (RT := Sample.runtime) Sample.item_placeholders)).
Proof.
  destruct (warning_conditions (RT := Sample.runtime) Sample.item_placeholders
              (JStr "default") (JStr "bare") "N/A" eq_refl eq_refl)
    as [Hhosts Haddr].
  split.
  - apply Hhosts. right. apply contains_refl.
  - apply (Haddr "N/A" eq_refl); [discriminate | apply contains_refl].
Defined.

(** ** Placeholders and empty joins *)

Lemma joined_placeholders key l parts :
  Forall2 (fun x p => py_get x key (JStr "N/A") = Ok (JStr p)) l parts →
  length parts = length l ∧
  (∀ (i : nat) x, l !! i = Some x → lacks key x → parts !! i = Some "N/A") ∧
  ((∃ x, x ∈ l ∧ lacks key x) → contains "N/A" (str_join ", " parts)) ∧
  (str_join ", " parts = "" ↔
     l = [] ∨ ∃ x, l = [x] ∧ has_entry key (JStr "") x).
Proof.
  intros HF.
  assert (∀ (i : nat) x, l !! i = Some x → lacks key x → parts !! i = Some "N/A")
    as Hidx.
  { intros i x Hi Hx.
    destruct (Forall2_lookup_l _ _ _ _ _ HF Hi) as (p & Hp & Hget).
    rewrite (py_get_lacks _ _ _ Hx) in Hget. congruence. }
  split_and!.
  - symmetry. by eapply Forall2_length.
  - exact Hidx.
  - intros (x & [i Hi]%list_elem_of_lookup & Hx).
    apply contains_join, list_elem_of_lookup. exists i. eauto.
  - rewrite str_join_empty_iff by discriminate. split.
    + intros [->| ->].
      * left. by inversion HF.
      * right. inversion HF as [|x p l' ps Hget Htl]; subst.
        inversion Htl; subst. exists x. split; [reflexivity|].
        apply py_get_placeholder in Hget as [H|[_ H]]; [exact H | discriminate].
    + intros [->|(x & -> & Hx)].
      * left. by inversion HF.
      * right. inversion HF as [|? p ? ps Hget Htl]; subst.
        inversion Htl; subst.
        rewrite (py_get_has_entry _ _ _ _ Hx) in Hget. congruence.
Qed.

(** C4, as the code has it: every rule without a host, and every load
    balancer entry without an ip, puts the placeholder "N/A" at its place
    in the joined string; the joined string is empty exactly when the list
    is empty or is a single entry whose host (ip) is the empty string. *)
Theorem placeholders_and_empty_joins item :
  (∀ rules h, item_rules item = Ok rules → item_hosts item = Ok h →
     ∃ parts, h = str_join ", " parts ∧ length parts = length rules ∧
       (∀ (i : nat) r, rules !! i = Some r → lacks "host" r →
                       parts !! i = Some "N/A") ∧
       ((∃ r, r ∈ rules ∧ lacks "host" r) → contains "N/A" h) ∧
       (h = "" ↔ rules = [] ∨ ∃ r, rules = [r] ∧ has_entry "host" (JStr "") r)) ∧
  (∀ lbs a, item_lbs item = Ok lbs → item_address item = Ok a →
     ∃ parts, a = str_join ", " parts ∧ length parts = length lbs ∧
       (∀ (i : nat) lb, lbs !! i = Some lb → lacks "ip" lb →
                        parts !! i = Some "N/A") ∧
       ((∃ lb, lb ∈ lbs ∧ lacks "ip" lb) → contains "N/A" a) ∧
       (a = "" ↔ lbs = [] ∨ ∃ lb, lbs = [lb] ∧ has_entry "ip" (JStr "") lb)).
Proof.
  split.
  - intros rules h Hrules (rules' & parts & Hrules' & HF & ->)%item_hosts_ok.
    assert (rules' = rules) as -> by congruence.
    exists parts. split; [reflexivity|].
    exact (joined_placeholders "host" rules parts HF).
  - intros lbs a Hlbs (lbs' & parts & Hlbs' & HF & ->)%item_address_ok.
    assert (lbs' = lbs) as -> by congruence.
    exists parts. split; [reflexivity|].
    exact (joined_placeholders "ip" lbs parts HF).
Qed.

Lemma placeholders_and_empty_joins_witness :
  ∃ parts, "N/A" = str_join ", " parts ∧ length parts = 1%nat ∧
    parts !! 0%nat = Some "N/A" ∧ "N/A" ≠ "".
Proof.
  destruct (proj1 (placeholders_and_empty_joins Sample.item_placeholders)
              [JObj []] "N/A" eq_refl eq_refl)
    as (parts & Hjoin & Hlen & Hidx & _ & Hempty).
  exists parts. split_and!; [exact Hjoin | exact Hlen | | discriminate].
  apply (Hidx 0%nat (JObj [])); [reflexivity | by exists []].
Defined.

(** The claim as the spec words it fails: a single rule whose host is the
    empty string gives an empty hosts string from a rule list that is not
    empty. *)
Lemma empty_hosts_from_nonempty_rules :
  item_rules Sample.item_empty_host = Ok [JObj [("host", JStr "")]] ∧
  item_hosts Sample.item_empty_host = Ok "" ∧
  ¬ (∀ item rules h, item_rules item = Ok rules → item_hosts item = Ok h →
       (h = "" ↔ rules = [])).
Proof.
  split_and!; [reflexivity | reflexivity |].
  intros H.
  destruct (H Sample.item_empty_host [JObj [("host", JStr "")]] ""
              eq_refl eq_refl) as [Hnil _].
  specialize (Hnil eq_refl). discriminate.
Qed.

(** ** Hosts in rule order *)

Lemma has_entry_rule_host r h : has_entry "host" (JStr h) r → rule_host r = Ok (JStr h).
Proof. apply py_get_has_entry. Qed.

(** C5: when every rule has a host string, the hosts value is these strings
    joined with ", " in the order of the rules; with no rule at all it is the
    empty string; and the hosts field of the record is that value. *)
Theorem hosts_joined_in_order {RT : Runtime} item rules :
  item_rules item = Ok rules →
  (rules = [] → item_hosts item = Ok "") ∧
  (∀ hs, Forall2 (fun r h => has_entry "host" (JStr h) r) rules hs →
         item_hosts item = Ok (str_join ", " hs)) ∧
  (∀ row, outcome (extract_item item) = Ok row →
          ∃ h, item_hosts item = Ok h ∧ row !! 2%nat = Some (JStr h)).
Proof.
  intros Hrules. split_and!.
  - intros ->. apply item_hosts_ok. exists [], []. by split_and!.
  - intros hs HF. apply item_hosts_ok. exists rules, hs. split_and!; [done| |done].
    eapply Forall2_impl; [exact HF|]. intros r h. apply has_entry_rule_host.
  - intros row (ns & nm & h & a & P & _ & Hh & _ & _ & ->)%extract_item_ok.
    by exists h.
Qed.

Lemma hosts_joined_in_order_witness :
  item_hosts Sample.item_web = Ok "a.example, b.example" ∧
  ∀ row, outcome (extract_item (RT := Sample.runtime) Sample.item_web) = Ok row →
         ∃ h, item_hosts Sample.item_web = Ok h ∧ row !! 2%nat = Some (JStr h).
Proof.
  destruct (hosts_joined_in_order (RT := Sample.runtime) Sample.item_web _ eq_refl)
    as (_ & Hjoin & Hrow).
  split; [|exact Hrow].
  apply (Hjoin ["a.example"; "b.example"]).
  repeat constructor; eexists; (split; [reflexivity|reflexivity]).
Defined.

(** ** Records *)

Lemma traced_mapM_ok {A B} (f : A → traced B) (l : list A) (ys : list B) :
  outcome (traced_mapM f l) = Ok ys ↔
  Forall2 (fun x y => outcome (f x) = Ok y) l ys.
Proof.
  revert ys. induction l as [|x l IH]; intros ys; simpl.
  - split.
    + intros [= <-]. constructor.
    + intros H. by inversion H.
  - rewrite traced_bind_outcome_ok. split.
    + intros (y & Hy & H).
      apply traced_bind_outcome_ok in H as (ys' & Hys & [= <-]).
      constructor; [exact Hy | by apply IH].
    + intros H. inversion H as [|? y ? ys' Hy Hys]; subst.
      exists y. split; [exact Hy|].
      apply traced_bind_outcome_ok. exists ys'. split; [by apply IH | reflexivity].
Qed.

Lemma traced_mapM_trace {A B} (f : A → traced B) (l : list A) (ys : list B) :
  outcome (traced_mapM f l) = Ok ys →
  trace (traced_mapM f l) = concat (map (fun x => trace (f x)) l).
Proof.
  revert ys. induction l as [|x l IH]; intros ys; [reflexivity|].
  intros H. pose proof H as H'. simpl in H.
  apply traced_bind_outcome_ok in H as (y & Hy & H).
  apply traced_bind_outcome_ok in H as (ys' & Hys & _).
  simpl. rewrite (traced_bind_ok_eq _ _ y Hy). simpl.
  rewrite (traced_bind_ok_eq _ _ ys' Hys). simpl.
  by rewrite app_nil_r, (IH ys' Hys).
Qed.

Section Records.
Context {RT : Runtime}.

Lemma extract_ingress_info_ok json_data rows :
  outcome (extract_ingress_info json_data) = Ok rows ↔
  ∃ items, doc_items json_data = Ok items ∧
           Forall2 (fun item row => outcome (extract_item item) = Ok row) items rows.
Proof.
  unfold extract_ingress_info, doc_items.
  destruct (py_getitem json_data "items") as [v|e].
  - rewrite lift_bind_ok. cbn [mbind result_bind].
    destruct (py_iter v) as [items|e].
    + rewrite lift_bind_ok, traced_mapM_ok. split.
      * intros H. by exists items.
      * by intros (items' & [= <-] & H).
    + split; [discriminate | by intros (? & ? & _)].
  - split; [discriminate | by intros (? & ? & _)].
Qed.

(** C8, as the code has it: every record has exactly five fields; hosts,
    address and ports are strings whatever the document holds; namespace and
    name are the values of the item's metadata, unchanged, so a record is
    made of strings only when these two are strings. *)
Theorem record_fields json_data rows :
  outcome (extract_ingress_info json_data) = Ok rows →
  ∃ items, doc_items json_data = Ok items ∧
    Forall2 (fun item row =>
      length row = 5%nat ∧
      ∃ ns nm, item_meta item = Ok (ns, nm) ∧
        row !! 0%nat = Some ns ∧ row !! 1%nat = Some nm ∧
        (∀ i v, (2 ≤ i)%nat → row !! i = Some v → is_str v) ∧
        (is_str ns → is_str nm → Forall is_str row)) items rows.
Proof.
  intros (items & Hitems & HF)%extract_ingress_info_ok.
  exists items. split; [exact Hitems|].
  eapply Forall2_impl; [exact HF|]. clear.
  intros item row (ns & nm & h & a & P & Hmeta & _ & _ & _ & ->)%extract_item_ok.
  split; [reflexivity|]. exists ns, nm. split_and!; try done.
  - intros [|[|[|[|[|i]]]]] v Hi Hv; try lia; simplify_eq/=; by eexists.
  - intros Hns Hnm. repeat constructor; try done; by eexists.
Qed.

End Records.

Lemma record_fields_witness :
  ∃ items, doc_items (Sample.doc [Sample.item_web]) = Ok items ∧
    Forall2 (fun item row =>
      length row = 5%nat ∧
      ∃ ns nm, item_meta item = Ok (ns, nm) ∧
        row !! 0%nat = Some ns ∧ row !! 1%nat = Some nm ∧
        (∀ i v, (2 ≤ i)%nat → row !! i = Some v → is_str v) ∧
        (is_str ns → is_str nm → Forall is_str row))
      items
      [[JStr "default"; JStr "web"; JStr "a.example, b.example";
        JStr "10.0.0.1"; JStr "8080, 80"]].
Proof.
  apply (record_fields (RT := Sample.runtime) (Sample.doc [Sample.item_web])).
  vm_compute. reflexivity.
Defined.

(** The claim as the spec words it fails: the namespace of the metadata goes
    into the record as it is, here the number 7. *)
Lemma record_with_number_field :
  outcome (extract_ingress_info (RT := Sample.runtime)
             (Sample.doc [Sample.item_number_namespace]))
  = Ok [[JInt 7; JStr "web"; JStr ""; JStr ""; JStr "80"]] ∧
  ¬ Forall is_str [JInt 7; JStr "web"; JStr ""; JStr ""; JStr "80"].
Proof.
  split; [vm_compute; reflexivity|].
  intros H. apply Forall_cons in H as [[s Hs] _]. discriminate.
Qed.

(** ** Ports *)

Lemma result_mapM_app {A B} (f : A → result B) (l1 l2 : list A) (ys : list B) :
  result_mapM f (l1 ++ l2) = Ok ys ↔
  ∃ ys1 ys2, result_mapM f l1 = Ok ys1 ∧ result_mapM f l2 = Ok ys2 ∧
             ys = ys1 ++ ys2.
Proof.
  rewrite result_mapM_ok. split.
  - intros (ys1 & ys2 & H1 & H2 & ->)%Forall2_app_inv_l.
    exists ys1, ys2. by rewrite !result_mapM_ok.
  - intros (ys1 & ys2 & H1%result_mapM_ok & H2%result_mapM_ok & ->).
    by apply Forall2_app.
Qed.

Lemma union_empty_r_gset (P : gset string) : P ∪ ∅ = P.
Proof. apply (right_id_L ∅ (∪)). Qed.

Lemma union_assoc_gset (P Q R : gset string) : P ∪ (Q ∪ R) = P ∪ Q ∪ R.
Proof. apply (assoc_L (∪)). Qed.

Section Ports.
Context {RT : Runtime}.

(** The loop over the paths of one rule (lines 56 to 58). *)
Lemma add_paths_ok paths (P Q : gset string) :
  result_foldM add_path paths P = Ok Q ↔
  ∃ nums, result_mapM path_number paths = Ok nums ∧
          Q = P ∪ list_to_set (py_str <$> nums).
Proof.
  revert P. induction paths as [|path paths IH]; intros P; simpl.
  - split.
    + intros [= <-]. exists []. split; [reflexivity|]. simpl.
      by rewrite union_empty_r_gset.
    + intros (nums & [= <-] & ->). simpl. by rewrite union_empty_r_gset.
  - rewrite result_bind_ok. split.
    + intros (P' & HP' & HQ). unfold add_path in HP'.
      apply result_bind_ok in HP' as (n & Hn & [= <-]).
      apply IH in HQ as (nums & Hnums & ->).
      exists (n :: nums). rewrite Hn, Hnums. split; [reflexivity|].
      simpl. by rewrite union_assoc_gset.
    + intros (nums & H & ->).
      apply result_bind_ok in H as (n & Hn & H).
      apply result_bind_ok in H as (nums' & Hnums' & [= <-]).
      exists (P ∪ {[py_str n]}). split.
      * unfold add_path. by rewrite Hn.
      * apply IH. exists nums'. split; [done|].
        simpl. by rewrite union_assoc_gset.
Qed.

(** The loop over the rules (lines 55 to 58). *)
Lemma add_rules_ok rules (P Q : gset string) :
  result_foldM add_rule rules P = Ok Q ↔
  ∃ pss nums, result_mapM rule_paths rules = Ok pss ∧
              result_mapM path_number (concat pss) = Ok nums ∧
              Q = P ∪ list_to_set (py_str <$> nums).
Proof.
  revert P. induction rules as [|rule rules IH]; intros P; simpl.
  - split.
    + intros [= <-]. exists [], []. split_and!; try reflexivity.
      simpl. by rewrite union_empty_r_gset.
    + intros (pss & nums & [= <-] & [= <-] & ->). simpl.
      by rewrite union_empty_r_gset.
  - rewrite result_bind_ok. split.
    + intros (P' & HP' & HQ). unfold add_rule in HP'.
      apply result_bind_ok in HP' as (paths & Hpaths & HP').
      apply add_paths_ok in HP' as (nums1 & Hnums1 & ->).
      apply IH in HQ as (pss & nums & Hpss & Hnums & ->).
      exists (paths :: pss), (nums1 ++ nums). rewrite Hpaths, Hpss.
      split_and!; [reflexivity | |].
      * apply result_mapM_app. by exists nums1, nums.
      * by rewrite fmap_app, list_to_set_app_L, union_assoc_gset.
    + intros (pss & nums & H & Hnums & ->).
      apply result_bind_ok in H as (paths & Hpaths & H).
      apply result_bind_ok in H as (pss' & Hpss' & [= <-]).
      simpl in Hnums.
      apply result_mapM_app in Hnums as (n1 & n2 & Hn1 & Hn2 & ->).
      exists (P ∪ list_to_set (py_str <$> n1)). split.
      * unfold add_rule. rewrite Hpaths. simpl. apply add_paths_ok. eauto.
      * apply IH. exists pss', n2. split_and!; [done | done |].
        by rewrite fmap_app, list_to_set_app_L, union_assoc_gset.
Qed.

Lemma item_paths_ok item paths :
  item_paths item = Ok paths ↔
  ∃ rules pss, item_rules item = Ok rules ∧
               result_mapM rule_paths rules = Ok pss ∧ paths = concat pss.
Proof.
  unfold item_paths. rewrite result_bind_ok. split.
  - intros (rules & Hrules & H).
    apply result_bind_ok in H as (pss & Hpss & [= <-]). eauto.
  - intros (rules & pss & Hrules & Hpss & ->). exists rules. split; [done|].
    by rewrite Hpss.
Qed.

(** The set of ports of an item: "443" when there is a TLS section, and the
    [str] of every [service_port]. *)
Lemma item_ports_ok item (P : gset string) :
  item_ports item = Ok P ↔
  ∃ tls paths nums, item_tls item = Ok tls ∧ item_paths item = Ok paths ∧
    result_mapM path_number paths = Ok nums ∧
    P = (if tls : bool then {[ "443" ]} else ∅) ∪ list_to_set (py_str <$> nums).
Proof.
  unfold item_ports. rewrite result_bind_ok. split.
  - intros (tls & Htls & H). apply result_bind_ok in H as (rules & Hrules & H).
    apply add_rules_ok in H as (pss & nums & Hpss & Hnums & ->).
    exists tls, (concat pss), nums. split_and!; try done.
    apply item_paths_ok. eauto.
  - intros (tls & paths & nums & Htls & Hpaths & Hnums & ->).
    apply item_paths_ok in Hpaths as (rules & pss & Hrules & Hpss & ->).
    exists tls. split; [done|]. rewrite Hrules. simpl.
    apply add_rules_ok. eauto.
Qed.

End Ports.

Section PortsString.
Context {RT : Runtime}.

(** [str] gives the empty string for the empty string only. *)
Lemma py_str_empty_iff v : py_str v = "" ↔ v = JStr "".
Proof.
  destruct v as [|b|n|c cs|s|items|fields]; simpl;
    try (split; discriminate).
  - destruct b; split; discriminate.
  - split; [|discriminate]. intros H. by apply pretty_Z_nonempty in H.
  - split; congruence.
Qed.

Lemma set_iter_elem (P : gset string) x : x ∈ set_iter P ↔ x ∈ P.
Proof. by rewrite set_iter_perm, elem_of_elements. Qed.

Lemma set_iter_NoDup (P : gset string) : NoDup (set_iter P).
Proof. rewrite set_iter_perm. apply NoDup_elements. Qed.

Lemma set_iter_singleton x : set_iter {[ x ]} = [x].
Proof.
  apply Permutation_singleton_r. by rewrite set_iter_perm, elements_singleton.
Qed.

(** Line 60 gives the empty string for one set only. *)
Lemma ports_to_str_empty_iff (P : gset string) :
  ports_to_str P = "" ↔ P = {[ "" ]}.
Proof.
  unfold ports_to_str. case_decide as HP.
  - subst P. split; [discriminate|].
    intros H. exfalso. assert ("" ∈ (∅ : gset string)) as Hin.
    { rewrite H. by apply elem_of_singleton. }
    by apply not_elem_of_empty in Hin.
  - rewrite str_join_empty_iff by discriminate. split.
    + intros [Hnil|Hone].
      * exfalso. apply HP. apply set_eq. intros x.
        rewrite <- set_iter_elem, Hnil. split; [by intros ?%elem_of_nil|].
        by intros ?%not_elem_of_empty.
      * apply set_eq. intros x.
        by rewrite <- set_iter_elem, Hone, list_elem_of_singleton, elem_of_singleton.
    + intros ->. right. apply set_iter_singleton.
Qed.

Lemma ports_of_numbers_elem (tls : bool) nums s :
  s ∈ ((if tls then {[ "443" ]} else ∅) ∪ list_to_set (py_str <$> nums) : gset string)
  ↔ (tls = true ∧ s = "443") ∨ ∃ n, n ∈ nums ∧ s = py_str n.
Proof.
  rewrite elem_of_union, elem_of_list_to_set, list_elem_of_fmap.
  destruct tls.
  - rewrite elem_of_singleton. split.
    + intros [->|(n & -> & Hn)]; [by left | right; eauto].
    + intros [[_ ->]|(n & Hn & ->)]; [by left | right; eauto].
  - split.
    + intros [?%not_elem_of_empty|(n & -> & Hn)]; [done|]. right. eauto.
    + intros [[? _]|(n & Hn & ->)]; [done|]. right. eauto.
Qed.

(** The empty ports string needs: no TLS section, at least one path, and
    the empty string as the port number of every path. *)
Lemma ports_of_numbers_empty_iff (tls : bool) nums :
  ports_to_str ((if tls then {[ "443" ]} else ∅) ∪ list_to_set (py_str <$> nums)) = ""
  ↔ tls = false ∧ nums ≠ [] ∧ ∀ n, n ∈ nums → n = JStr "".
Proof.
  rewrite ports_to_str_empty_iff. split.
  - intros H.
    assert (∀ s, ((tls = true ∧ s = "443") ∨ ∃ n, n ∈ nums ∧ s = py_str n) ↔ s = "")
      as Hs.
    { intros s. by rewrite <- ports_of_numbers_elem, H, elem_of_singleton. }
    split_and!.
    + destruct tls; [|reflexivity].
      assert ("443" = "") by (apply Hs; left; done). discriminate.
    + intros ->. destruct (proj2 (Hs "") eq_refl) as [[_ ?]|(n & Hn & _)];
        [discriminate | by apply elem_of_nil in Hn].
    + intros n Hn. apply py_str_empty_iff, Hs. right. eauto.
  - intros (Htls & Hne & Hall). apply set_eq. intros s.
    rewrite ports_of_numbers_elem, elem_of_singleton. split.
    + intros [[? _]|(n & Hn & ->)]; [congruence|].
      by rewrite (Hall n Hn).
    + intros ->. right. destruct nums as [|n nums]; [done|].
      exists n. split; [by left|]. by rewrite (Hall n) by by left.
Qed.

End PortsString.

Section PortsClaims.
Context {RT : Runtime}.

Lemma ports_to_str_nonempty_set (P : gset string) :
  P ≠ ∅ → ports_to_str P = str_join ", " (set_iter P).
Proof. intros HP. unfold ports_to_str. by case_decide. Qed.

Lemma item_numbers_ok item nums :
  item_numbers item = Ok nums ↔
  ∃ paths, item_paths item = Ok paths ∧ result_mapM path_number paths = Ok nums.
Proof. unfold item_numbers. apply result_bind_ok. Qed.

(** The ports field of a record, and what it was made from. *)
Lemma extract_item_ports item row :
  outcome (extract_item item) = Ok row →
  ∃ tls paths nums,
    item_tls item = Ok tls ∧ item_paths item = Ok paths ∧
    result_mapM path_number paths = Ok nums ∧
    row !! 4%nat =
      Some (JStr (ports_to_str ((if tls : bool then {[ "443" ]} else ∅) ∪
                                list_to_set (py_str <$> nums)))).
Proof.
  intros (ns & nm & h & a & P & _ & _ & _ & HP & ->)%extract_item_ok.
  apply item_ports_ok in HP as (tls & paths & nums & Htls & Hpaths & Hnums & ->).
  by exists tls, paths, nums.
Qed.

End PortsClaims.

(** C1, as the code has it. For every item the extractor makes a record of:
    the ports string is not empty unless a path has the empty string as its
    port number; without TLS section and without paths it is "80"; with a
    TLS section it has "443" in it, and is "443" when there are no paths;
    without TLS section and with paths that all carry an integer port
    number, it is the join of these numbers in decimal, each once, whatever
    the repetitions. *)
Theorem ports_string {RT : Runtime} item row :
  outcome (extract_item item) = Ok row →
  ∃ p tls paths nums,
    row !! 4%nat = Some (JStr p) ∧ item_tls item = Ok tls ∧
    item_paths item = Ok paths ∧ result_mapM path_number paths = Ok nums ∧
    ((∀ n, n ∈ nums → n ≠ JStr "") → p ≠ "") ∧
    (tls = false → paths = [] → p = "80") ∧
    (tls = true → contains "443" p ∧ (paths = [] → p = "443")) ∧
    (tls = false → ∀ ns : list Z, ns ≠ [] → nums = JInt <$> ns →
       ∃ parts, p = str_join ", " parts ∧ NoDup parts ∧
                ∀ s, s ∈ parts ↔ ∃ n, n ∈ ns ∧ s = pretty n).
Proof.
  intros (tls & paths & nums & Htls & Hpaths & Hnums & Hrow)%extract_item_ports.
  eexists _, tls, paths, nums. split_and!; [exact Hrow | done | done | done | ..].
  - intros Hall [_ [Hne Hempty]]%ports_of_numbers_empty_iff.
    destruct nums as [|n nums]; [done|].
    apply (Hall n); [by left | apply Hempty; by left].
  - intros -> ->. simpl in Hnums. injection Hnums as <-. simpl.
    rewrite union_empty_r_gset. unfold ports_to_str. by case_decide.
  - intros ->.
    assert ("443" ∈ ({[ "443" ]} ∪ list_to_set (py_str <$> nums) : gset string))
      as Hin by (apply elem_of_union; left; by apply elem_of_singleton).
    assert (({[ "443" ]} ∪ list_to_set (py_str <$> nums) : gset string) ≠ ∅)
      as Hne by (intros H; rewrite H in Hin; by apply not_elem_of_empty in Hin).
    rewrite (ports_to_str_nonempty_set _ Hne). split.
    + by apply contains_join, set_iter_elem.
    + intros ->. simpl in Hnums. injection Hnums as <-. simpl.
      by rewrite union_empty_r_gset, set_iter_singleton.
  - intros -> ns Hns ->.
    assert (∀ s, s ∈ (∅ ∪ list_to_set (py_str <$> (JInt <$> ns)) : gset string)
                 ↔ ∃ n, n ∈ ns ∧ s = pretty n) as Hmem.
    { intros s. rewrite (ports_of_numbers_elem false). split.
      - intros [[? _]|(v & (n & -> & Hn)%list_elem_of_fmap & ->)]; [done|].
        by exists n.
      - intros (n & Hn & ->). right. exists (JInt n). split; [|done].
        apply list_elem_of_fmap. eauto. }
    assert ((∅ ∪ list_to_set (py_str <$> (JInt <$> ns)) : gset string) ≠ ∅) as Hne.
    { destruct ns as [|n ns]; [done|]. intros H.
      assert (pretty n ∈ (∅ : gset string)) as Hin
        by (rewrite <- H; apply Hmem; exists n; split; [by left | done]).
      by apply not_elem_of_empty in Hin. }
    rewrite (ports_to_str_nonempty_set _ Hne).
    eexists. split_and!; [reflexivity | apply set_iter_NoDup |].
    intros s. by rewrite set_iter_elem, Hmem.
Qed.

Lemma ports_string_witness :
  ∃ p tls paths nums,
    [JStr "default"; JStr "web"; JStr "a.example, b.example"; JStr "10.0.0.1";
     JStr "8080, 80"] !! 4%nat = Some (JStr p) ∧
    item_tls Sample.item_web = Ok tls ∧
    item_paths Sample.item_web = Ok paths ∧
    result_mapM path_number paths = Ok nums ∧
    ((∀ n, n ∈ nums → n ≠ JStr "") → p ≠ "") ∧
    (tls = false → paths = [] → p = "80") ∧
    (tls = true → contains "443" p ∧ (paths = [] → p = "443")) ∧
    (tls = false → ∀ ns : list Z, ns ≠ [] → nums = JInt <$> ns →
       ∃ parts, p = str_join ", " parts ∧ NoDup parts ∧
                ∀ s, s ∈ parts ↔ ∃ n, n ∈ ns ∧ s = pretty n).
Proof.
  apply (ports_string (RT := Sample.runtime) Sample.item_web).
  vm_compute. reflexivity.
Defined.

(** One path whose port number is the empty string: the set of ports is
    not empty, its only member is the empty string, and so is the join, in
    whatever order sets are gone through. *)
Lemma empty_port_any_runtime {RT : Runtime} :
  item_ports_str Sample.item_empty_port = Ok "".
Proof.
  unfold item_ports_str.
  assert (item_ports Sample.item_empty_port = Ok {[ "" ]}) as ->.
  { apply item_ports_ok. exists false, [Sample.path_to (JStr "")], [JStr ""].
    split_and!; reflexivity. }
  simpl. f_equal. by apply ports_to_str_empty_iff.
Qed.

(** The claim as the spec words it fails: the record of this item has the
    empty string as its ports. *)
Lemma empty_ports_string :
  item_ports_str (RT := Sample.runtime) Sample.item_empty_port = Ok "" ∧
  outcome (extract_item (RT := Sample.runtime) Sample.item_empty_port) =
  Ok [JStr "default"; JStr "odd"; JStr "a.example"; JStr ""; JStr ""].
Proof.
  split; [apply empty_port_any_runtime | vm_compute; reflexivity].
Qed.

(** ** The missing-ports warning *)

Lemma Exists_concat_map {A B} (P : B → Prop) (f : A → list B) (l : list A) :
  Exists P (concat (map f l)) ↔ ∃ x, x ∈ l ∧ Exists P (f x).
Proof.
  induction l as [|x l IH]; simpl.
  - rewrite Exists_nil. split; [done | by intros (x & ?%elem_of_nil & _)].
  - rewrite Exists_app, IH. split.
    + intros [H|(y & Hy & H)]; [exists x | exists y]; split; auto; by constructor.
    + intros (y & [->|Hy]%elem_of_cons & H); [by left | right; eauto].
Qed.

Section PortsWarning.
Context {RT : Runtime}.

(** When an item that gives a record logs the missing-ports warning. *)
Lemma item_ports_warning item row :
  outcome (extract_item item) = Ok row →
  (Exists ports_warning (trace (extract_item item)) ↔
   ∃ nums, item_tls item = Ok false ∧ item_numbers item = Ok nums ∧
           nums ≠ [] ∧ ∀ n, n ∈ nums → n = JStr "").
Proof.
  intros (ns & nm & h & a & P & Hmeta & Hh & Ha & HP & ->)%extract_item_ok.
  rewrite (extract_item_run item ns nm h a P) by done.
  cbn [trace]. unfold item_warnings.
  pose proof HP as HP'.
  apply item_ports_ok in HP' as (tls & paths & nums & Htls & Hpaths & Hnums & ->).
  trans (ports_to_str ((if tls then {[ "443" ]} else ∅) ∪
                       list_to_set (py_str <$> nums)) = "").
  - rewrite <- str_empty_true.
    destruct (str_in "N/A" h || str_empty h), (str_empty a), (str_empty _); simpl;
      (split; [intros HE; first [reflexivity | no_such_event HE]
              | intros ?; first [discriminate | find_event]]).
  - rewrite ports_of_numbers_empty_iff. split.
    + intros (-> & Hne & Hall). exists nums. split_and!; try done.
      apply item_numbers_ok. eauto.
    + intros (nums' & Htls' & (paths' & Hpaths' & Hnums')%item_numbers_ok & Hne & Hall).
      assert (paths' = paths) as -> by congruence.
      assert (nums' = nums) as -> by congruence.
      split_and!; [congruence | done | done].
Qed.

Lemma extract_ingress_info_trace json_data rows items :
  outcome (extract_ingress_info json_data) = Ok rows →
  doc_items json_data = Ok items →
  trace (extract_ingress_info json_data) =
  concat (map (fun item => trace (extract_item item)) items).
Proof.
  intros Hrows Hitems. unfold extract_ingress_info, doc_items in *.
  destruct (py_getitem json_data "items") as [v|e]; [|discriminate].
  rewrite lift_bind_ok in *. cbn [mbind result_bind] in Hitems.
  rewrite Hitems, lift_bind_ok in *.
  by apply traced_mapM_trace with rows.
Qed.

End PortsWarning.

(** C2, as the code has it: in a document the extractor gets through, the
    missing-ports warning is logged exactly when some item has no TLS
    section, at least one path, and the empty string as the port number of
    every path; a document whose port numbers are integers, or are absent,
    never logs it. *)
Theorem ports_warning_condition {RT : Runtime} json_data rows :
  outcome (extract_ingress_info json_data) = Ok rows →
  ∃ items, doc_items json_data = Ok items ∧
    (Exists ports_warning (trace (extract_ingress_info json_data)) ↔
     ∃ item nums, item ∈ items ∧ item_tls item = Ok false ∧
       item_numbers item = Ok nums ∧ nums ≠ [] ∧ ∀ n, n ∈ nums → n = JStr "") ∧
    ((∀ item nums n, item ∈ items → item_numbers item = Ok nums → n ∈ nums →
                     n ≠ JStr "") →
     ¬ Exists ports_warning (trace (extract_ingress_info json_data))).
Proof.
  intros Hrows. pose proof Hrows as (items & Hitems & HF)%extract_ingress_info_ok.
  exists items. split; [exact Hitems|].
  rewrite (extract_ingress_info_trace json_data rows items Hrows Hitems).
  rewrite Exists_concat_map.
  assert ((∃ item, item ∈ items ∧ Exists ports_warning (trace (extract_item item))) ↔
          ∃ item nums, item ∈ items ∧ item_tls item = Ok false ∧
            item_numbers item = Ok nums ∧ nums ≠ [] ∧ ∀ n, n ∈ nums → n = JStr "")
    as Hiff.
  { split.
    - intros (item & Hin & HE).
      destruct (proj1 (list_elem_of_lookup _ _) Hin) as [i Hi].
      destruct (Forall2_lookup_l _ _ _ _ _ HF Hi) as (row & _ & Hrow).
      apply (item_ports_warning item row Hrow) in HE as (nums & ?).
      exists item, nums. tauto.
    - intros (item & nums & Hin & Hrest). exists item. split; [exact Hin|].
      destruct (proj1 (list_elem_of_lookup _ _) Hin) as [i Hi].
      destruct (Forall2_lookup_l _ _ _ _ _ HF Hi) as (row & _ & Hrow).
      apply (item_ports_warning item row Hrow). eauto. }
  split; [exact Hiff|].
  intros Hall (item & nums & Hin & _ & Hnums & Hne & Hempty)%Hiff.
  destruct nums as [|n nums]; [done|].
  apply (Hall item (n :: nums) n Hin Hnums); [by left | apply Hempty; by left].
Qed.

Lemma ports_warning_condition_witness :
  ∃ items, doc_items (Sample.doc [Sample.item_web; Sample.item_placeholders])
           = Ok items ∧
    (Exists ports_warning
       (trace (extract_ingress_info (RT := Sample.runtime)
                 (Sample.doc [Sample.item_web; Sample.item_placeholders]))) ↔
     ∃ item nums, item ∈ items ∧ item_tls item = Ok false ∧
       item_numbers item = Ok nums ∧ nums ≠ [] ∧ ∀ n, n ∈ nums → n = JStr "") ∧
    ((∀ item nums n, item ∈ items → item_numbers item = Ok nums → n ∈ nums →
                     n ≠ JStr "") →
     ¬ Exists ports_warning
         (trace (extract_ingress_info (RT := Sample.runtime)
                   (Sample.doc [Sample.item_web; Sample.item_placeholders])))).
Proof.
  eapply (ports_warning_condition (RT := Sample.runtime)).
  vm_compute. reflexivity.
Defined.

(** The claim as the spec words it fails: the branch of line 64 is reached,
    and the warning is in the log of this document. *)
Lemma ports_warning_fires :
  trace (extract_ingress_info (RT := Sample.runtime)
           (Sample.doc [Sample.item_empty_port])) =
  [LogExtracting (JStr "default") (JStr "odd");
   WarnAddress (JStr "odd") (JStr "default");
   WarnPorts (JStr "odd") (JStr "default")] ∧
  Exists ports_warning
    (trace (extract_ingress_info (RT := Sample.runtime)
              (Sample.doc [Sample.item_empty_port]))).
Proof.
  assert (trace (extract_ingress_info (RT := Sample.runtime)
                   (Sample.doc [Sample.item_empty_port])) =
          [LogExtracting (JStr "default") (JStr "odd");
           WarnAddress (JStr "odd") (JStr "default");
           WarnPorts (JStr "odd") (JStr "default")]) as Htrace
    by (vm_compute; reflexivity).
  split; [exact Htrace|]. rewrite Htrace. find_event.
Qed.

(** ** Traces of the orchestrator *)

Lemma trace_bind_Forall {A B} (P : event → Prop) (m : traced A) (f : A → traced B) :
  Forall P (trace m) → (∀ a, outcome m = Ok a → Forall P (trace (f a))) →
  Forall P (trace (m ≫= f)).
Proof.
  intros Hm Hf. unfold mbind, traced_bind.
  destruct (outcome m) as [a|e] eqn:E; simpl; [|exact Hm].
  apply Forall_app. split; [exact Hm | by apply Hf].
Qed.

Lemma trace_lift_Forall {A} (P : event → Prop) (r : result A) :
  Forall P (trace (lift r)).
Proof. constructor. Qed.

Lemma trace_when_Forall (P : event → Prop) (b : bool) ev :
  P ev → Forall P (trace (when b (emit ev))).
Proof. intros H. destruct b; simpl; repeat constructor. exact H. Qed.

Lemma trace_mapM_Forall {A B} (P : event → Prop) (f : A → traced B) l :
  (∀ x, Forall P (trace (f x))) → Forall P (trace (traced_mapM f l)).
Proof.
  intros Hf. induction l as [|x l IH]; simpl; [constructor|].
  apply trace_bind_Forall; [apply Hf|]. intros y _.
  apply trace_bind_Forall; [apply IH|]. intros ys _. constructor.
Qed.

Lemma trace_foldM_Forall {A S} (P : event → Prop) (f : A → S → traced S) l acc :
  (∀ x s, Forall P (trace (f x s))) → Forall P (trace (traced_foldM f l acc)).
Proof.
  intros Hf. revert acc. induction l as [|x l IH]; intros acc; simpl; [constructor|].
  apply trace_bind_Forall; [apply Hf|]. intros acc' _. apply IH.
Qed.

(** Goes through a computation bind by bind. *)
Ltac trace_kinds :=
  repeat first
    [ apply trace_lift_Forall
    | apply trace_when_Forall; reflexivity
    | apply trace_bind_Forall; [|intros ? _]
    | by repeat constructor ].

Section Traces.
Context {RT : Runtime}.

Lemma extract_item_logs item :
  Forall (fun ev => is_log ev = true) (trace (extract_item item)).
Proof. unfold extract_item. trace_kinds. Qed.

Lemma extract_ingress_info_logs json_data :
  Forall (fun ev => is_log ev = true) (trace (extract_ingress_info json_data)).
Proof.
  unfold extract_ingress_info. trace_kinds.
  apply trace_mapM_Forall, extract_item_logs.
Qed.

Lemma summary_file_issues w info filename :
  Forall (fun ev => is_issue ev = true) (trace (summary_file w info filename)).
Proof.
  unfold summary_file. destruct (is_snapshot filename); [|constructor].
  trace_kinds. apply trace_foldM_Forall. intros item _.
  unfold summary_item. trace_kinds.
Qed.

End Traces.

Lemma is_log_quiet ev : is_log ev = true → is_quiet ev = true.
Proof. by destruct ev. Qed.

Lemma is_issue_quiet ev : is_issue ev = true → is_quiet ev = true.
Proof. by destruct ev. Qed.

Lemma created_app t1 t2 : created (t1 ++ t2) = created t1 ++ created t2.
Proof. apply omap_app. Qed.

Lemma written_app t1 t2 : written (t1 ++ t2) = written t1 ++ written t2.
Proof. apply omap_app. Qed.

Lemma filter_verdict_app t1 t2 :
  List.filter is_verdict (t1 ++ t2) =
  List.filter is_verdict t1 ++ List.filter is_verdict t2.
Proof. apply List.filter_app. Qed.

Lemma created_cons ev t :
  created (ev :: t) =
  match ev with PrintCreated c => c :: created t | _ => created t end.
Proof. by destruct ev. Qed.

Lemma written_cons ev t :
  written (ev :: t) =
  match ev with WriteFile p c => (p, c) :: written t | _ => written t end.
Proof. by destruct ev. Qed.

(** Quiet events do not show in [created], [written] or the verdicts. *)
Lemma quiet_trace t :
  Forall (fun ev => is_quiet ev = true) t →
  created t = [] ∧ written t = [] ∧ List.filter is_verdict t = [].
Proof.
  induction 1 as [|ev t Hev _ (IH1 & IH2 & IH3)]; [done|].
  rewrite created_cons, written_cons. cbn [List.filter].
  rewrite IH1, IH2, IH3. by destruct ev.
Qed.

Lemma files_after_written t fs :
  files_after t fs = foldl (fun fs pc => <[pc.1 := pc.2]> fs) fs (written t).
Proof.
  revert fs. induction t as [|ev t IH]; intros fs; [reflexivity|].
  destruct ev; simpl; apply IH.
Qed.

(** ** The first pass of the orchestrator *)

Lemma traced_bind_ok_inv {A B} (m : traced A) (f : A → traced B) (b : B) :
  outcome (m ≫= f) = Ok b →
  ∃ a, outcome m = Ok a ∧ outcome (f a) = Ok b ∧
       trace (m ≫= f) = trace m ++ trace (f a).
Proof.
  intros H. pose proof H as (a & Ha & Hb)%traced_bind_outcome_ok.
  exists a. split_and!; [done | done |]. by rewrite (traced_bind_ok_eq m f a Ha).
Qed.

Section FirstPass.
Context {RT : Runtime}.
Variable w : world.
Variables info results : string.

Lemma process_file_other f (S : gset string) :
  is_snapshot f = false → process_file w info results f S = mret S.
Proof. intros H. unfold process_file. by rewrite H. Qed.

Lemma process_file_snapshot f (S S' : gset string) :
  is_snapshot f = true →
  outcome (process_file w info results f S) = Ok S' →
  ∃ report, report_of w info results f report ∧
    S' = S ∪ {[ cluster_prefix_of (cluster_name_of f) ]} ∧
    created (trace (process_file w info results f S)) = [cluster_name_of f] ∧
    written (trace (process_file w info results f S)) = [report] ∧
    List.filter is_verdict (trace (process_file w info results f S)) = [].
Proof.
  intros Hsnap. unfold process_file. rewrite Hsnap.
  destruct (read_json_file w (os_path_join info f)) as [d|e] eqn:Hread;
    [|discriminate].
  rewrite lift_bind_ok. intros H.
  apply traced_bind_ok_inv in H as (rows & Hrows & H & ->).
  unfold generate_markdown_table in *.
  destruct (open_write w (output_file results (cluster_name_of f))) as [[]|e];
    [|discriminate].
  rewrite lift_bind_ok in *. simpl in H. injection H as <-.
  exists (output_file results (cluster_name_of f),
          markdown_content rows (cluster_name_of f)).
  destruct (quiet_trace (trace (extract_ingress_info d))) as (Hc & Hw & Hv).
  { eapply Forall_impl; [apply extract_ingress_info_logs | apply is_log_quiet]. }
  split_and!.
  - by exists d, rows.
  - reflexivity.
  - by rewrite created_app, Hc.
  - by rewrite written_app, Hw.
  - by rewrite filter_verdict_app, Hv.
Qed.

(** The loop of lines 103 to 119, when it gets through the listing. *)
Lemma first_pass_ok filenames (S S' : gset string) :
  outcome (traced_foldM (process_file w info results) filenames S) = Ok S' →
  S' = S ∪ processed_prefixes filenames ∧
  created (trace (traced_foldM (process_file w info results) filenames S))
  = map cluster_name_of (List.filter is_snapshot filenames) ∧
  Forall2 (report_of w info results) (List.filter is_snapshot filenames)
    (written (trace (traced_foldM (process_file w info results) filenames S))) ∧
  List.filter is_verdict
    (trace (traced_foldM (process_file w info results) filenames S)) = [].
Proof.
  revert S. induction filenames as [|f fs IH]; intros S.
  - simpl. intros [= <-]. unfold processed_prefixes. simpl.
    split_and!; [by rewrite union_empty_r_gset | done | constructor | done].
  - cbn [traced_foldM]. intros H.
    apply traced_bind_ok_inv in H as (S1 & HS1 & H & ->).
    apply IH in H as (-> & Hc & Hw & Hv).
    rewrite created_app, written_app, filter_verdict_app, Hc, Hv.
    unfold processed_prefixes in *. cbn [List.filter].
    destruct (is_snapshot f) eqn:Hsnap.
    + apply (process_file_snapshot f S S1 Hsnap) in HS1
        as (report & Hreport & -> & Hc1 & Hw1 & Hv1).
      rewrite Hc1, Hw1, Hv1. split_and!; try done.
      * cbn [map list_to_set]. by rewrite union_assoc_gset.
      * by constructor.
    + rewrite (process_file_other f S Hsnap) in HS1 |- *.
      simpl in HS1. injection HS1 as <-. by split_and!.
Qed.

End FirstPass.

(** ** A whole run of the orchestrator *)

Section WholeRun.
Context {RT : Runtime}.
Variable w : world.

Lemma report_missed_verdict (S : gset string) :
  report_missed S = emit (verdict S).
Proof. unfold report_missed, verdict. by case_decide. Qed.

Lemma ensure_dir_quiet results :
  Forall (fun ev => is_quiet ev = true) (trace (ensure_dir w results)).
Proof.
  unfold ensure_dir. destruct (os_path_exists w results); [constructor|].
  trace_kinds.
Qed.

Lemma summary_quiet info filenames :
  Forall (fun ev => is_quiet ev = true)
    (trace (for_each (summary_file w info) filenames)).
Proof.
  apply trace_foldM_Forall. intros f _.
  eapply Forall_impl; [apply summary_file_issues | apply is_issue_quiet].
Qed.

(** A run that ends normally: making the directory, the first pass, the
    verdict on the expected clusters, the summary. *)
Lemma process_all_clusters_ok info results filenames :
  os_listdir w info = Ok filenames →
  outcome (process_all_clusters w info results) = Ok tt →
  ∃ pre S post,
    Forall (fun ev => is_quiet ev = true) pre ∧
    outcome (traced_foldM (process_file w info results) filenames ∅) = Ok S ∧
    Forall (fun ev => is_quiet ev = true) post ∧
    trace (process_all_clusters w info results) =
    pre ++ trace (traced_foldM (process_file w info results) filenames ∅)
        ++ verdict S :: post.
Proof.
  intros Hlist H. unfold process_all_clusters in *. rewrite Hlist in *.
  apply traced_bind_ok_inv in H as ([] & _ & H & ->).
  rewrite lift_bind_ok in *.
  apply traced_bind_ok_inv in H as (S & HS & H & ->).
  rewrite report_missed_verdict, emit_bind in *. cbn [trace outcome] in *.
  eexists (trace (ensure_dir w results)), S, _.
  split_and!; [apply ensure_dir_quiet | exact HS | | reflexivity].
  rewrite emit_bind, lift_bind_ok. cbn [trace].
  constructor; [reflexivity|].
  apply trace_bind_Forall; [apply summary_quiet|]. intros _ _.
  by repeat constructor.
Qed.

End WholeRun.

Lemma is_snapshot_spec f :
  is_snapshot f = true ↔ ∃ pre, f = pre +:+ "_ingress.json".
Proof. apply endswith_app. Qed.

Lemma verdict_kind {RT : Runtime} (S : gset string) :
  is_verdict (verdict S) = true ∧ is_quiet (verdict S) = false.
Proof. unfold verdict. by case_decide. Qed.

(** C6: in a run that gets to its end, the reports are created for exactly
    the entries of the listing that end with "_ingress.json", in the order
    of the listing, each under the cluster name that stands before the first
    underscore of the file name; the group of a cluster is what stands
    before the first hyphen of its name; and after these reports one verdict
    is printed: the confirmation when no expected group is left over by the
    groups of the snapshots, the warning naming the missing groups when
    some are. *)
Theorem orchestrator_run {RT : Runtime} w info results filenames :
  os_listdir w info = Ok filenames →
  outcome (process_all_clusters w info results) = Ok tt →
  let run := trace (process_all_clusters w info results) in
  let snapshots := List.filter is_snapshot filenames in
  let missed := EXPECTED_CLUSTERS ∖ processed_prefixes filenames in
  (∀ f, f ∈ snapshots ↔ f ∈ filenames ∧ ∃ pre, f = pre +:+ "_ingress.json") ∧
  created run = map cluster_name_of snapshots ∧
  Forall2 (report_of w info results) snapshots (written run) ∧
  (∀ f, ¬ has_char "_" (cluster_name_of f) ∧
        ((¬ has_char "_" f ∧ cluster_name_of f = f) ∨
         ∃ rest, f = cluster_name_of f +:+ String "_" rest)) ∧
  (∀ c, ¬ has_char "-" (cluster_prefix_of c) ∧
        ((¬ has_char "-" c ∧ cluster_prefix_of c = c) ∨
         ∃ rest, c = cluster_prefix_of c +:+ String "-" rest)) ∧
  (∃ before after,
     run = before ++ verdict (processed_prefixes filenames) :: after ∧
     created before = map cluster_name_of snapshots ∧ created after = []) ∧
  List.filter is_verdict run = [verdict (processed_prefixes filenames)] ∧
  ((∃ names, PrintMissed names ∈ run) ↔ missed ≠ ∅) ∧
  (PrintAllProcessed ∈ run ↔ missed = ∅).
Proof.
  intros Hlist Hrun run snapshots missed.
  destruct (process_all_clusters_ok w info results filenames Hlist Hrun)
    as (pre & S & post & Hpre & HS & Hpost & Htrace).
  apply first_pass_ok in HS as (-> & Hc & Hw & Hv).
  assert ((∅ : gset string) ∪ processed_prefixes filenames
          = processed_prefixes filenames) as HS by apply (left_id_L ∅ (∪)).
  rewrite HS in Htrace. clear HS.
  destruct (quiet_trace pre Hpre) as (Hc1 & Hw1 & Hv1).
  destruct (quiet_trace post Hpost) as (Hc2 & Hw2 & Hv2).
  destruct (verdict_kind (processed_prefixes filenames)) as [Hvk Hvq].
  assert (created [verdict (processed_prefixes filenames)] = [] ∧
          written [verdict (processed_prefixes filenames)] = []) as [Hc3 Hw3].
  { unfold verdict. by case_decide. }
  assert (List.filter is_verdict run = [verdict (processed_prefixes filenames)])
    as Hfilter.
  { subst run. rewrite Htrace, !filter_verdict_app, Hv1, Hv.
    cbn [List.filter]. by rewrite Hvk, Hv2. }
  assert (∀ ev, is_verdict ev = true →
                (ev ∈ run ↔ ev = verdict (processed_prefixes filenames))) as Hin.
  { intros ev Hev. rewrite list_elem_of_In.
    trans (In ev (List.filter is_verdict run)).
    - rewrite List.filter_In. tauto.
    - rewrite Hfilter. simpl. split; [intros [?|[]]; done | by left]. }
  split_and!.
  - intros f. subst snapshots.
    by rewrite list_elem_of_In, List.filter_In, <- list_elem_of_In, is_snapshot_spec.
  - subst run. rewrite Htrace, !created_app, Hc1, Hc.
    change (verdict ?S :: post) with ([verdict S] ++ post).
    by rewrite created_app, Hc2, Hc3, !app_nil_r.
  - subst run. rewrite Htrace, !written_app, Hw1.
    change (verdict ?S :: post) with ([verdict S] ++ post).
    by rewrite written_app, Hw2, Hw3, !app_nil_r.
  - intros f. split; [apply split_first_no_sep | apply split_first_spec].
  - intros c. split; [apply split_first_no_sep | apply split_first_spec].
  - eexists (pre ++ _), post. split_and!.
    + subst run. by rewrite Htrace, <- app_assoc.
    + by rewrite created_app, Hc1, Hc.
    + exact Hc2.
  - exact Hfilter.
  - split.
    + intros [names Hnames]. apply (Hin (PrintMissed names) eq_refl) in Hnames.
      unfold verdict in Hnames. by case_decide.
    + intros Hmissed.
      exists (str_join ", " (set_iter missed)).
      apply (Hin (PrintMissed _) eq_refl). unfold verdict. by case_decide.
  - rewrite (Hin PrintAllProcessed eq_refl). unfold verdict. fold missed.
    case_decide; split; done.
Qed.

Lemma orchestrator_run_witness :
  created (trace (process_all_clusters (RT := Sample.runtime) Sample.world_two
                    "info_cache_20240101" "results"))
  = ["cluster1-a"; "cluster2-b"] ∧
  PrintAllProcessed ∈ trace (process_all_clusters (RT := Sample.runtime)
                               Sample.world_two "info_cache_20240101" "results").
Proof.
  destruct (orchestrator_run (RT := Sample.runtime) Sample.world_two
              "info_cache_20240101" "results" _ eq_refl eq_refl)
    as (_ & Hcreated & _ & _ & _ & _ & _ & _ & Hall).
  split; [exact Hcreated|]. apply Hall. vm_compute. reflexivity.
Defined.

(** ** Failures *)

Lemma traced_bind_outcome_eq {A B} (m : traced A) (f : A → traced B) (a : A) :
  outcome m = Ok a → outcome (m ≫= f) = outcome (f a).
Proof. intros H. by rewrite (traced_bind_ok_eq m f a H). Qed.

Lemma traced_bind_outcome_raise {A B} (m : traced A) (f : A → traced B) e :
  outcome m = Raise e → outcome (m ≫= f) = Raise e.
Proof. intros H. by rewrite (traced_bind_raise_eq m f e H). Qed.

Lemma foldM_prefix_ok {A S} (f : A → S → traced S) l1 l2 (acc acc' : S) :
  outcome (traced_foldM f l1 acc) = Ok acc' →
  outcome (traced_foldM f (l1 ++ l2) acc) = outcome (traced_foldM f l2 acc').
Proof.
  revert acc. induction l1 as [|x l1 IH]; intros acc; simpl.
  - by intros [= <-].
  - intros (a & Ha & H)%traced_bind_outcome_ok.
    rewrite (traced_bind_outcome_eq _ _ a Ha). by apply IH.
Qed.

Section Failures.
Context {RT : Runtime}.
Variable w : world.

Lemma ensure_dir_ready results :
  dir_ready w results → outcome (ensure_dir w results) = Ok tt.
Proof.
  unfold dir_ready, ensure_dir.
  destruct (os_path_exists w results); [done|].
  intros [?|H]; [done|]. by rewrite H.
Qed.

Lemma ensure_dir_raise results e :
  os_path_exists w results = false → os_makedirs w results = Raise e →
  outcome (ensure_dir w results) = Raise e.
Proof. intros H1 H2. unfold ensure_dir. by rewrite H1, H2. Qed.

(** The loader catches nothing. *)
Lemma read_json_file_raise path e :
  read_json_file w path = Raise e ↔
  open_read w path = Raise e ∨
  ∃ text, open_read w path = Ok text ∧ json_load text = Raise e.
Proof. apply result_bind_raise. Qed.

Lemma process_file_read_raise info results f (S : gset string) e :
  is_snapshot f = true → read_json_file w (os_path_join info f) = Raise e →
  outcome (process_file w info results f S) = Raise e.
Proof. intros Hsnap Hread. unfold process_file. by rewrite Hsnap, Hread. Qed.

Lemma process_file_extract_raise info results f (S : gset string) d e :
  is_snapshot f = true → read_json_file w (os_path_join info f) = Ok d →
  outcome (extract_ingress_info d) = Raise e →
  outcome (process_file w info results f S) = Raise e.
Proof.
  intros Hsnap Hread Hex. unfold process_file.
  rewrite Hsnap, Hread, lift_bind_ok. by apply traced_bind_outcome_raise.
Qed.

(** A failure in the first pass ends the run with that failure. *)
Lemma first_pass_raise info results pre f post (S : gset string) e :
  dir_ready w results → os_listdir w info = Ok (pre ++ f :: post) →
  outcome (traced_foldM (process_file w info results) pre ∅) = Ok S →
  outcome (process_file w info results f S) = Raise e →
  outcome (process_all_clusters w info results) = Raise e.
Proof.
  intros Hdir Hlist Hpre Hf. unfold process_all_clusters.
  rewrite (traced_bind_outcome_eq _ _ tt (ensure_dir_ready results Hdir)).
  rewrite Hlist, lift_bind_ok.
  apply traced_bind_outcome_raise.
  rewrite (foldM_prefix_ok _ pre (f :: post) ∅ S Hpre). simpl.
  by apply traced_bind_outcome_raise.
Qed.

Lemma listdir_raise info results e :
  dir_ready w results → os_listdir w info = Raise e →
  process_all_clusters w info results =
  Traced (trace (ensure_dir w results)) (Raise e).
Proof.
  intros Hdir Hlist. unfold process_all_clusters.
  rewrite (traced_bind_ok_eq _ _ tt (ensure_dir_ready results Hdir)).
  rewrite Hlist. simpl. by rewrite app_nil_r.
Qed.

End Failures.

(** What becomes of a failure. When the input directory is missing, the
    driver prints the message that names the directory and the process ends
    normally. A failure of any kind but [FileNotFoundError] ends the process
    with that failure: the loader and the orchestrator catch nothing, so what
    opening, reading or parsing a snapshot raises, what the extractor raises,
    and what listing the directory or making the output directory raises,
    goes up to the driver, which lets it through. *)
Theorem driver_failures {RT : Runtime} w :
  (dir_ready w RESULTS_DIR →
   os_listdir w (INFO_CACHE_DIR w) = Raise FileNotFoundError →
   main w = (trace (ensure_dir w RESULTS_DIR) ++
             [PrintDirMissing FileNotFoundError (INFO_CACHE_DIR w)], ExitNormal)) ∧
  (∀ e, e ≠ FileNotFoundError →
     outcome (process_all_clusters w (INFO_CACHE_DIR w) RESULTS_DIR) = Raise e →
     main w = (trace (process_all_clusters w (INFO_CACHE_DIR w) RESULTS_DIR),
               Traceback e)) ∧
  (∀ path e, open_read w path = Raise e → read_json_file w path = Raise e) ∧
  (∀ path text e, open_read w path = Ok text → json_load text = Raise e →
     read_json_file w path = Raise e) ∧
  (∀ info results pre f post S e,
     dir_ready w results → os_listdir w info = Ok (pre ++ f :: post) →
     outcome (traced_foldM (process_file w info results) pre ∅) = Ok S →
     is_snapshot f = true →
     (read_json_file w (os_path_join info f) = Raise e ∨
      ∃ d, read_json_file w (os_path_join info f) = Ok d ∧
           outcome (extract_ingress_info d) = Raise e) →
     outcome (process_all_clusters w info results) = Raise e) ∧
  (∀ info results e, dir_ready w results → os_listdir w info = Raise e →
     outcome (process_all_clusters w info results) = Raise e) ∧
  (∀ info results e,
     os_path_exists w results = false → os_makedirs w results = Raise e →
     outcome (process_all_clusters w info results) = Raise e).
Proof.
  split_and!.
  - intros Hdir Hlist. unfold main.
    by rewrite (listdir_raise w _ _ _ Hdir Hlist).
  - intros e He Hrun. unfold main. rewrite Hrun. by destruct e.
  - intros path e H. apply read_json_file_raise. by left.
  - intros path text e H1 H2. apply read_json_file_raise. right. eauto.
  - intros info results pre f post S e Hdir Hlist Hpre Hsnap Hfail.
    apply (first_pass_raise w info results pre f post S e Hdir Hlist Hpre).
    destruct Hfail as [Hread|(d & Hread & Hex)].
    + by apply process_file_read_raise.
    + by apply process_file_extract_raise with d.
  - intros info results e Hdir Hlist. by rewrite (listdir_raise w _ _ _ Hdir Hlist).
  - intros info results e H1 H2. unfold process_all_clusters.
    apply traced_bind_outcome_raise. by apply ensure_dir_raise.
Qed.

Lemma driver_failures_witness :
  main (RT := Sample.runtime) Sample.world_no_dir =
    ([MakeDirs "results"; PrintDirMissing FileNotFoundError "info_cache_20240101"],
     ExitNormal) ∧
  main (RT := Sample.runtime) Sample.world_bad_json =
    ([MakeDirs "results"], Traceback JSONDecodeError).
Proof.
  destruct (driver_failures (RT := Sample.runtime) Sample.world_no_dir)
    as (Hmissing & _).
  destruct (driver_failures (RT := Sample.runtime) Sample.world_bad_json)
    as (_ & Hother & _).
  split.
  - apply Hmissing; [by right | reflexivity].
  - apply (Hother JSONDecodeError); [discriminate | reflexivity].
Defined.

(** C7, at the input where the code goes against it. The claim has the
    driver handle the missing input directory and nothing else, and so do
    the comment of line 154 and the message of line 155. Here the input
    directory is there and lists a snapshot that cannot be opened because it
    does not exist; the [FileNotFoundError] of the loader goes up through
    the orchestrator into the [try] of the driver, which handles it as a
    missing directory: it prints that the directory does not exist, and the
    process ends normally instead of failing. *)
Theorem driver_catches_missing_snapshot :
  os_listdir Sample.world_dangling (INFO_CACHE_DIR Sample.world_dangling)
  = Ok ["c_ingress.json"] ∧
  read_json_file (RT := Sample.runtime) Sample.world_dangling
    (@os_path_join Sample.runtime (INFO_CACHE_DIR Sample.world_dangling)
                   "c_ingress.json")
  = Raise FileNotFoundError ∧
  main (RT := Sample.runtime) Sample.world_dangling =
    ([MakeDirs "results"; PrintDirMissing FileNotFoundError "info_cache_20240101"],
     ExitNormal).
Proof. split_and!; reflexivity. Qed.

(** ** The summary pass after the first pass *)

Lemma for_each_ok {A} (f : A → traced unit) (l : list A) :
  Forall (fun x => outcome (f x) = Ok tt) l → outcome (for_each f l) = Ok tt.
Proof.
  unfold for_each. induction 1 as [|x l Hx _ IH]; [reflexivity|].
  simpl. by rewrite (traced_bind_outcome_eq _ _ tt Hx).
Qed.

Section SummaryPass.
Context {RT : Runtime}.
Variable w : world.

(** The summary reads of an item what the extractor read first. *)
Lemma summary_item_ok cluster_name item row :
  outcome (extract_item item) = Ok row →
  outcome (summary_item cluster_name item) = Ok tt.
Proof.
  intros (ns & nm & h & a & P & Hmeta & Hh & _)%extract_item_ok.
  apply item_meta_ok in Hmeta as (md & Hmd & Hns & Hnm).
  unfold summary_item. rewrite Hmd, Hh.
  repeat progress rewrite ?Hns, ?Hnm, ?lift_bind_ok.
  by destruct (str_in "N/A" h || str_empty h).
Qed.

Lemma summary_file_ok info results f (S S' : gset string) :
  outcome (process_file w info results f S) = Ok S' →
  outcome (summary_file w info f) = Ok tt.
Proof.
  intros H. unfold summary_file.
  destruct (is_snapshot f) eqn:Hsnap; [|reflexivity].
  apply (process_file_snapshot w info results f S S' Hsnap) in H
    as (report & (d & rows & Hread & Hrows & _) & _).
  apply extract_ingress_info_ok in Hrows as (items & Hitems & HF).
  unfold doc_items in Hitems.
  apply result_bind_ok in Hitems as (v & Hv & Hiter).
  rewrite Hread, lift_bind_ok, Hv, lift_bind_ok, Hiter, lift_bind_ok.
  apply for_each_ok.
  clear Hiter. induction HF as [|item row items rows' Hitem _ IH]; [constructor|].
  constructor; [by apply summary_item_ok with row | exact IH].
Qed.

Lemma summary_pass_ok info results filenames (S S' : gset string) :
  outcome (traced_foldM (process_file w info results) filenames S) = Ok S' →
  outcome (for_each (summary_file w info) filenames) = Ok tt.
Proof.
  intros H. apply for_each_ok.
  revert S H. induction filenames as [|f fs IH]; intros S H; [constructor|].
  simpl in H. apply traced_bind_outcome_ok in H as (S1 & HS1 & H).
  constructor; [by apply summary_file_ok with results S S1 | by apply IH with S1].
Qed.

End SummaryPass.

(** ** Reports that share a path *)

Lemma run_reports {RT : Runtime} w info results filenames :
  os_listdir w info = Ok filenames →
  outcome (process_all_clusters w info results) = Ok tt →
  Forall2 (report_of w info results) (List.filter is_snapshot filenames)
          (written (trace (process_all_clusters w info results))).
Proof.
  intros Hlist Hrun.
  destruct (process_all_clusters_ok w info results filenames Hlist Hrun)
    as (pre & S & post & Hpre & HS & Hpost & ->).
  apply first_pass_ok in HS as (_ & _ & Hw & _).
  destruct (quiet_trace pre Hpre) as (_ & Hw1 & _).
  destruct (quiet_trace post Hpost) as (_ & Hw2 & _).
  rewrite !written_app, Hw1, written_cons, Hw2.
  replace (match verdict S with WriteFile p c => [(p, c)] | _ => [] end)
    with (@nil (string * string)) by (unfold verdict; by case_decide).
  by rewrite app_nil_r.
Qed.


Example colliding_reports_run :
  (written (trace (process_all_clusters (RT := Sample.runtime) Sample.world_collide
                     "info_cache_20240101" "results"))).*1
  = ["results/a_ingress.md"; "results/a_ingress.md"] ∧
  dom (files_after (trace (process_all_clusters (RT := Sample.runtime)
                             Sample.world_collide "info_cache_20240101" "results"))
                   ∅)
  = {[ "results/a_ingress.md" ]}.
Proof. split; vm_compute; reflexivity. Qed.

(** ** The reporter *)

Lemma length_append (s t : string) :
  String.length (s +:+ t) = (String.length s + String.length t)%nat.
Proof.
  induction s as [|c s IH]; [reflexivity|]. rewrite append_cons. simpl. by rewrite IH.
Qed.

Lemma append_inv_tail (a b t : string) : a +:+ t = b +:+ t → a = b.
Proof.
  revert b. induction a as [|c a IH]; intros [|d b] H; norm_app.
  - reflexivity.
  - exfalso. apply (f_equal String.length) in H. simpl in H.
    rewrite length_append in H. lia.
  - exfalso. apply (f_equal String.length) in H. simpl in H.
    rewrite length_append in H. lia.
  - injection H as -> H. f_equal. by apply IH.
Qed.

(** The reporter puts the table between the heading and a newline and
    changes nothing in it: two reports of one cluster are the same text
    only when [tabulate] gave the same table. Whether the cells can be read
    back from the table is then a matter of [tabulate] alone. *)
Lemma markdown_content_table {RT : Runtime} rows1 rows2 cluster_name :
  markdown_content rows1 cluster_name = markdown_content rows2 cluster_name →
  tabulate rows1 headers = tabulate rows2 headers.
Proof.
  unfold markdown_content. intros H.
  repeat apply String.app_inj in H.
  by apply append_inv_tail in H.
Qed.

(** * Further properties of the code *)

(** ** The extractor on documents it cannot get through *)

Lemma traced_mapM_stops {A B} (f : A → traced B) pre x post (ys : list B) e :
  Forall2 (fun a y => outcome (f a) = Ok y) pre ys →
  outcome (f x) = Raise e →
  outcome (traced_mapM f (pre ++ x :: post)) = Raise e ∧
  trace (traced_mapM f (pre ++ x :: post)) =
  concat (map (fun a => trace (f a)) pre) ++ trace (f x).
Proof.
  intros Hpre Hx. induction Hpre as [|a y pre ys Ha _ [IHo IHt]]; simpl.
  - rewrite (traced_bind_raise_eq _ _ e Hx). by split.
  - rewrite (traced_bind_ok_eq _ _ y Ha). cbn [trace outcome].
    rewrite (traced_bind_raise_eq _ _ e IHo). cbn [trace outcome].
    split; [reflexivity|]. by rewrite IHt, app_assoc.
Qed.

(** X3. The loop of line 31 gives no records at all once one item raises: the
    exception of the first item that fails is the outcome, whatever comes
    after it is not looked at, and what the items before it logged stays
    logged. *)
Theorem extraction_stops_at_first_failure {RT : Runtime}
    json_data pre item post rows e :
  doc_items json_data = Ok (pre ++ item :: post) →
  Forall2 (fun it row => outcome (extract_item it) = Ok row) pre rows →
  outcome (extract_item item) = Raise e →
  outcome (extract_ingress_info json_data) = Raise e ∧
  trace (extract_ingress_info json_data) =
  concat (map (fun it => trace (extract_item it)) pre) ++ trace (extract_item item).
Proof.
  intros Hitems Hpre Hitem. unfold extract_ingress_info, doc_items in *.
  apply result_bind_ok in Hitems as (v & Hv & Hiter).
  rewrite Hv, lift_bind_ok, Hiter, lift_bind_ok.
  by apply traced_mapM_stops with rows.
Qed.

Lemma extraction_stops_at_first_failure_witness :
  outcome (extract_ingress_info (RT := Sample.runtime)
             (Sample.doc [Sample.item_web; JObj []; Sample.item_placeholders]))
  = Raise KeyError ∧
  trace (extract_ingress_info (RT := Sample.runtime)
           (Sample.doc [Sample.item_web; JObj []; Sample.item_placeholders]))
  = [LogExtracting (JStr "default") (JStr "web")].
Proof.
  destruct (extraction_stops_at_first_failure (RT := Sample.runtime)
              (Sample.doc [Sample.item_web; JObj []; Sample.item_placeholders])
              [Sample.item_web] (JObj []) [Sample.item_placeholders]
              [[JStr "default"; JStr "web"; JStr "a.example, b.example";
                JStr "10.0.0.1"; JStr "8080, 80"]] KeyError)
    as [Ho Ht].
  - reflexivity.
  - repeat constructor.
  - reflexivity.
  - split; [exact Ho|]. rewrite Ht. reflexivity.
Defined.

(** ** An item that has its metadata only *)

(** X4. An item without [spec] and without [status] is no error: its hosts and
    its address are empty, its ports are the default "80", and the log has
    the two warnings for hosts and address, not the one for ports. *)
Theorem item_without_spec_and_status {RT : Runtime} fields ns nm :
  item_meta (JObj fields) = Ok (ns, nm) →
  dict_lookup "spec" fields = None →
  dict_lookup "status" fields = None →
  extract_item (JObj fields) =
  Traced [LogExtracting ns nm; WarnHosts nm ns; WarnAddress nm ns]
         (Ok [ns; nm; JStr ""; JStr ""; JStr "80"]).
Proof.
  intros Hmeta Hspec Hstatus.
  assert (item_hosts (JObj fields) = Ok "") as Hh.
  { unfold item_hosts, item_rules. simpl. by rewrite Hspec. }
  assert (item_address (JObj fields) = Ok "") as Ha.
  { unfold item_address, item_lbs. simpl. by rewrite Hstatus. }
  assert (item_ports (JObj fields) = Ok ∅) as HP.
  { unfold item_ports, item_tls, item_rules. simpl. by rewrite Hspec. }
  rewrite (extract_item_run _ ns nm "" "" ∅ Hmeta Hh Ha HP).
  unfold ports_to_str. by case_decide.
Qed.

Lemma item_without_spec_and_status_witness :
  extract_item (RT := Sample.runtime) Sample.item_number_namespace =
  Traced [LogExtracting (JInt 7) (JStr "web"); WarnHosts (JStr "web") (JInt 7);
          WarnAddress (JStr "web") (JInt 7)]
         (Ok [JInt 7; JStr "web"; JStr ""; JStr ""; JStr "80"]).
Proof.
  exact (item_without_spec_and_status (RT := Sample.runtime)
           [Sample.meta (JInt 7) (JStr "web")] (JInt 7) (JStr "web")
           eq_refl eq_refl eq_refl).
Defined.

(** ** Which rule lists give a hosts string *)

Lemma rule_host_not_dict r : ¬ is_dict r → rule_host r = Raise AttributeError.
Proof. intros H. destruct r; try reflexivity. destruct H. by eexists. Qed.

Lemma rule_host_dict r : is_dict r → ∃ x, rule_host r = Ok x.
Proof. intros [fields ->]. by eexists. Qed.

Lemma rule_host_raises r e : rule_host r = Raise e → e = AttributeError ∧ ¬ is_dict r.
Proof.
  destruct r; simpl; try (intros [= <-]; split; [done|]; by intros [? ?]).
  discriminate.
Qed.

Lemma hosts_not_dict rules :
  ¬ Forall is_dict rules → result_mapM rule_host rules = Raise AttributeError.
Proof.
  induction rules as [|r rules IH]; intros H.
  - destruct H. constructor.
  - simpl. destruct (rule_host r) as [x|e] eqn:Hr.
    + simpl. rewrite IH; [reflexivity|]. intros Hall. apply H. constructor; [|done].
      destruct r; try discriminate. by eexists.
    + by apply rule_host_raises in Hr as [-> _].
Qed.

Lemma hosts_all_dict rules :
  Forall is_dict rules →
  ∃ xs, result_mapM rule_host rules = Ok xs ∧
        Forall2 (fun r x => rule_host r = Ok x) rules xs.
Proof.
  induction 1 as [|r rules Hr _ (xs & Hxs & HF)].
  - exists []. split; [reflexivity | constructor].
  - destruct (rule_host_dict r Hr) as [x Hx]. exists (x :: xs). simpl.
    rewrite Hx, Hxs. split; [reflexivity | by constructor].
Qed.

Lemma as_str_all_not_str xs :
  ¬ Forall is_str xs → result_mapM as_str xs = Raise TypeError.
Proof.
  induction xs as [|x xs IH]; intros H.
  - destruct H. constructor.
  - simpl. destruct x; try reflexivity. simpl.
    rewrite IH; [reflexivity|]. intros Hall. apply H. constructor; [by eexists | done].
Qed.

Lemma py_join_not_str sep xs :
  ¬ Forall is_str xs → py_join sep xs = Raise TypeError.
Proof. intros H. unfold py_join. by rewrite (as_str_all_not_str xs H). Qed.

(** X5. Line 38 gives a hosts string exactly when every rule is a dict whose
    host, where it has one, is a string. A rule that is no dict raises
    [AttributeError] (it has no [get]); when all rules are dicts, a host
    that is no string makes [join] raise [TypeError]. *)
Theorem hosts_failure_kinds item rules :
  item_rules item = Ok rules →
  ((∃ h, item_hosts item = Ok h) ↔ Forall host_joinable rules) ∧
  (¬ Forall is_dict rules → item_hosts item = Raise AttributeError) ∧
  (Forall is_dict rules → ¬ Forall host_joinable rules →
   item_hosts item = Raise TypeError).
Proof.
  intros Hrules. split_and!.
  - split.
    + intros (h & (rules' & parts & Hrules' & HF & _)%item_hosts_ok).
      assert (rules' = rules) as -> by congruence.
      clear -HF. induction HF as [|r p rules parts Hr _ IH]; constructor; [|exact IH].
      apply py_get_placeholder in Hr as [?|[? _]]; [right; eauto | by left].
    + intros Hall.
      assert (∃ parts, Forall2 (fun r p => rule_host r = Ok (JStr p)) rules parts)
        as [parts HF].
      { clear -Hall. induction Hall as [|r rules Hr _ [parts IH]].
        - exists []. constructor.
        - destruct Hr as [Hr|[s Hr]].
          + exists ("N/A" :: parts). constructor; [|exact IH].
            by apply py_get_lacks.
          + exists (s :: parts). constructor; [|exact IH].
            by apply has_entry_rule_host. }
      exists (str_join ", " parts). apply item_hosts_ok.
      exists rules, parts. split_and!; [exact Hrules | exact HF | reflexivity].
  - intros Hnot. unfold item_hosts. rewrite Hrules. simpl.
    by rewrite (hosts_not_dict rules Hnot).
  - intros Hdict Hnot. unfold item_hosts. rewrite Hrules. simpl.
    destruct (hosts_all_dict rules Hdict) as (xs & Hxs & HF). rewrite Hxs. simpl.
    apply py_join_not_str. intros Hstr. apply Hnot.
    clear -HF Hstr. induction HF as [|r x rules xs Hr _ IH]; [constructor|].
    apply Forall_cons in Hstr as [[s ->] Hstr].
    constructor; [|by apply IH].
    apply py_get_placeholder in Hr as [?|[? _]]; [right; eauto | by left].
Qed.

Lemma hosts_failure_kinds_witness :
  item_hosts (JObj [("spec", JObj [("rules", JArr [JObj []; JNull])])])
  = Raise AttributeError ∧
  item_hosts (JObj [("spec", JObj [("rules", JArr [JObj [("host", JInt 1)]])])])
  = Raise TypeError.
Proof.
  destruct (hosts_failure_kinds
              (JObj [("spec", JObj [("rules", JArr [JObj []; JNull])])])
              [JObj []; JNull] eq_refl) as (_ & Hattr & _).
  destruct (hosts_failure_kinds
              (JObj [("spec", JObj [("rules", JArr [JObj [("host", JInt 1)]])])])
              [JObj [("host", JInt 1)]] eq_refl) as (_ & _ & Htype).
  split.
  - apply Hattr.
    intros H. apply Forall_cons in H as [_ H]. apply Forall_cons in H as [[? ?] _].
    discriminate.
  - apply Htype.
    + repeat constructor. by eexists.
    + intros H. apply Forall_cons in H as [[(f & [= <-] & ?)|(s & f & [= <-] & ?)] _];
        discriminate.
Defined.

(** ** The ports string in general *)

Lemma names_no_port_default path :
  names_no_port path → path_number path = Ok (JStr "80").
Proof.
  unfold path_number.
  intros [H|(backend & Hb & [H|(service & Hs & [H|(port & Hp & H)])])].
  - rewrite (py_get_lacks _ _ _ H). reflexivity.
  - rewrite (py_get_has_entry _ _ _ _ Hb). simpl.
    rewrite (py_get_lacks _ _ _ H). reflexivity.
  - rewrite (py_get_has_entry _ _ _ _ Hb). simpl.
    rewrite (py_get_has_entry _ _ _ _ Hs). simpl.
    rewrite (py_get_lacks _ _ _ H). reflexivity.
  - rewrite (py_get_has_entry _ _ _ _ Hb). simpl.
    rewrite (py_get_has_entry _ _ _ _ Hs). simpl.
    rewrite (py_get_has_entry _ _ _ _ Hp). simpl.
    by apply py_get_lacks.
Qed.

(** X6. Lines 52 to 60 for any item whose TLS test and paths can be read: the
    ports string is "80" when there is neither a TLS section nor a path;
    otherwise it is the join of parts without repetition, which are "443"
    when there is a TLS section and [str] of the port number of every path;
    a path that names no port number counts as "80". So "443" shows once
    also when a path names 443 beside a TLS section. *)
Theorem ports_string_parts {RT : Runtime} item tls paths nums :
  item_tls item = Ok tls → item_paths item = Ok paths →
  result_mapM path_number paths = Ok nums →
  ∃ p, item_ports_str item = Ok p ∧
    (tls = false → paths = [] → p = "80") ∧
    (tls = true ∨ paths ≠ [] →
       ∃ parts, p = str_join ", " parts ∧ NoDup parts ∧
         ∀ s, s ∈ parts ↔ (tls = true ∧ s = "443") ∨ ∃ n, n ∈ nums ∧ s = py_str n) ∧
    (∀ path, path ∈ paths → names_no_port path →
       tls = true ∨ paths ≠ [] → contains "80" p).
Proof.
  intros Htls Hpaths Hnums.
  set (P := ((if tls then {[ "443" ]} else ∅) ∪ list_to_set (py_str <$> nums)
             : gset string)).
  assert (item_ports item = Ok P) as HP.
  { apply item_ports_ok. by exists tls, paths, nums. }
  exists (ports_to_str P). unfold item_ports_str. rewrite HP.
  assert (tls = true ∨ paths ≠ [] → P ≠ ∅) as Hne.
  { intros Hor HPe.
    assert (∀ s, ¬ ((tls = true ∧ s = "443") ∨ ∃ n, n ∈ nums ∧ s = py_str n)) as Hno.
    { intros s Hs. apply ports_of_numbers_elem in Hs. fold P in Hs.
      rewrite HPe in Hs. by apply not_elem_of_empty in Hs. }
    destruct Hor as [->|Hp].
    - apply (Hno "443"). by left.
    - destruct paths as [|path paths]; [done|]. simpl in Hnums.
      apply result_bind_ok in Hnums as (n & _ & Hrest).
      apply result_bind_ok in Hrest as (ns & _ & [= <-]).
      apply (Hno (py_str n)). right. exists n. split; [by left | done]. }
  assert (tls = true ∨ paths ≠ [] →
          ∃ parts, ports_to_str P = str_join ", " parts ∧ NoDup parts ∧
            ∀ s, s ∈ parts ↔ (tls = true ∧ s = "443") ∨ ∃ n, n ∈ nums ∧ s = py_str n)
    as Hparts.
  { intros Hor. exists (set_iter P).
    split_and!; [by apply ports_to_str_nonempty_set, Hne | apply set_iter_NoDup |].
    intros s. rewrite set_iter_elem. apply ports_of_numbers_elem. }
  split_and!; [reflexivity | | exact Hparts |].
  - intros -> ->. simpl in Hnums. injection Hnums as <-. subst P. simpl.
    rewrite union_empty_r_gset. unfold ports_to_str. by case_decide.
  - intros path Hin Hdef Hor.
    destruct (Hparts Hor) as (parts & -> & _ & Hmem).
    apply contains_join, Hmem. right.
    apply result_mapM_ok in Hnums.
    destruct (proj1 (list_elem_of_lookup _ _) Hin) as [i Hi].
    destruct (Forall2_lookup_l _ _ _ _ _ Hnums Hi) as (n & Hn & Hpn).
    rewrite (names_no_port_default path Hdef) in Hpn. injection Hpn as <-.
    exists (JStr "80"). split; [|reflexivity].
    apply list_elem_of_lookup. eauto.
Qed.

(** A TLS section, a path to port 443 and a path without port number. *)
Lemma ports_string_parts_witness :
  ∃ p, item_ports_str (RT := Sample.runtime)
         (JObj [("spec", JObj [("tls", JArr []); ("rules", JArr [
            JObj [("http", JObj [("paths",
                    JArr [Sample.path_to (JInt 443); JObj []])])]])])]) = Ok p ∧
    ∃ parts, p = str_join ", " parts ∧ NoDup parts ∧
      ∀ s, s ∈ parts ↔ (true = true ∧ s = "443") ∨
                        ∃ n, n ∈ [JInt 443; JStr "80"] ∧
                             s = py_str (RT := Sample.runtime) n.
Proof.
  destruct (ports_string_parts (RT := Sample.runtime)
              (JObj [("spec", JObj [("tls", JArr []); ("rules", JArr [
                 JObj [("http", JObj [("paths",
                         JArr [Sample.path_to (JInt 443); JObj []])])]])])])
              true [Sample.path_to (JInt 443); JObj []] [JInt 443; JStr "80"]
              eq_refl eq_refl eq_refl) as (p & Hp & _ & Hparts & _).
  exists p. split; [exact Hp|]. apply Hparts. by left.
Defined.

(** ** Names of snapshots and of reports *)

Lemma last_char_app s t : t ≠ "" → last_char (s +:+ t) = last_char t.
Proof.
  intros Ht. induction s as [|c s IH]; [reflexivity|].
  rewrite append_cons. simpl. rewrite IH.
  destruct (s +:+ t) eqn:E; [|reflexivity].
  apply append_eq_empty in E as [_ ?]. contradiction.
Qed.

(** X7. The name of a report never passes the test of lines 104 and 131: a
    report is not taken for a snapshot, also when the reports are written
    into the directory the snapshots are read from. *)
Theorem report_name_is_no_snapshot cluster_name :
  is_snapshot (report_name cluster_name) = false.
Proof.
  destruct (is_snapshot (report_name cluster_name)) eqn:E; [|reflexivity].
  apply is_snapshot_spec in E as [pre E]. unfold report_name in E.
  apply (f_equal last_char) in E.
  rewrite !last_char_app in E by discriminate. discriminate.
Qed.

(** X8. The cluster name of a snapshot stands before an underscore of the file
    name and has no underscore in it; the name of a snapshot always has one,
    that of its suffix. It can be the empty string, for the file
    "_ingress.json", and it is never the whole name. *)
Theorem snapshot_cluster_name filename :
  is_snapshot filename = true →
  (∃ rest, filename = cluster_name_of filename +:+ String "_" rest) ∧
  ¬ has_char "_" (cluster_name_of filename) ∧
  cluster_name_of filename ≠ filename ∧
  ¬ has_char "-" (cluster_prefix_of (cluster_name_of filename)) ∧
  ¬ has_char "_" (cluster_prefix_of (cluster_name_of filename)).
Proof.
  intros [pre Hpre]%is_snapshot_spec.
  assert (has_char "_" filename) as Hhas.
  { rewrite Hpre. apply has_char_app. right. by left. }
  pose proof (split_first_no_sep "_" filename) as Hno.
  destruct (split_first_spec "_" filename) as [[Hnone _]|Hrest]; [contradiction|].
  split_and!.
  - exact Hrest.
  - exact Hno.
  - unfold cluster_name_of. intros Heq. rewrite Heq in Hno. contradiction.
  - apply split_first_no_sep.
  - unfold cluster_prefix_of, cluster_name_of.
    destruct (split_first_spec "-" (split_first "_" filename)) as [[_ Heq]|[rest Heq]].
    + by rewrite Heq.
    + intros H. apply Hno. rewrite Heq. apply has_char_app. by left.
Qed.

Lemma snapshot_cluster_name_witness :
  (∃ rest, "_ingress.json" = cluster_name_of "_ingress.json" +:+ String "_" rest) ∧
  cluster_name_of "_ingress.json" = "" ∧
  cluster_name_of "prod-eu_1_ingress.json" = "prod-eu" ∧
  cluster_prefix_of (cluster_name_of "prod-eu_1_ingress.json") = "prod".
Proof.
  destruct (snapshot_cluster_name "_ingress.json" eq_refl) as (Hrest & _).
  split_and!; [exact Hrest | reflexivity..].
Defined.

(** ** The verdict on the expected clusters *)

Lemma expected_elem x :
  x ∈ EXPECTED_CLUSTERS ↔ x = "cluster1" ∨ x = "cluster2".
Proof.
  unfold EXPECTED_CLUSTERS. by rewrite elem_of_union, !elem_of_singleton.
Qed.

Lemma missed_empty_iff (S : gset string) :
  EXPECTED_CLUSTERS ∖ S = ∅ ↔ "cluster1" ∈ S ∧ "cluster2" ∈ S.
Proof.
  split.
  - intros H.
    assert (∀ x, x ∈ EXPECTED_CLUSTERS → x ∈ S) as Hsub.
    { intros x Hx. destruct (decide (x ∈ S)) as [|Hn]; [done|]. exfalso.
      assert (x ∈ EXPECTED_CLUSTERS ∖ S) as Hin by (apply elem_of_difference; done).
      rewrite H in Hin. by apply not_elem_of_empty in Hin. }
    split; apply Hsub, expected_elem; auto.
  - intros [H1 H2]. apply set_eq. intros x.
    rewrite elem_of_difference, expected_elem. split.
    + intros [[->| ->] Hn]; contradiction.
    + by intros ?%not_elem_of_empty.
Qed.

(** X9. Lines 122 to 126: the confirmation is printed exactly when a snapshot of
    "cluster1" and one of "cluster2" were met; a snapshot of any other group
    changes nothing in what is printed; and the names the warning lists are
    the expected groups that were not met, each once. *)
Theorem missed_groups {RT : Runtime} (S : gset string) :
  (report_missed S = emit PrintAllProcessed ↔ "cluster1" ∈ S ∧ "cluster2" ∈ S) ∧
  (∀ g, g ∉ EXPECTED_CLUSTERS → report_missed (S ∪ {[ g ]}) = report_missed S) ∧
  (∀ names, report_missed S = emit (PrintMissed names) →
     ∃ parts, names = str_join ", " parts ∧ NoDup parts ∧
       ∀ x, x ∈ parts ↔ x ∈ EXPECTED_CLUSTERS ∧ x ∉ S).
Proof.
  split_and!.
  - rewrite <- missed_empty_iff. unfold report_missed.
    case_decide; split; done.
  - intros g Hg.
    assert (EXPECTED_CLUSTERS ∖ (S ∪ {[ g ]}) = EXPECTED_CLUSTERS ∖ S) as Heq.
    { apply set_eq. intros x.
      rewrite !elem_of_difference, elem_of_union, elem_of_singleton. split.
      - intros [Hx Hn]. split; [done|]. intros ?. apply Hn. by left.
      - intros [Hx Hn]. split; [done|]. intros [?| ->]; contradiction. }
    unfold report_missed. by rewrite Heq.
  - intros names. unfold report_missed. case_decide; [intros [=]|].
    intros [= <-]. eexists. split_and!; [reflexivity | apply set_iter_NoDup |].
    intros x. by rewrite set_iter_elem, elem_of_difference.
Qed.

(** ** The files a run leaves *)

Lemma foldl_insert_dom (ws : list (string * string)) (store : gmap string string) :
  dom (foldl (fun fs pc => <[pc.1 := pc.2]> fs) store ws)
  = dom store ∪ list_to_set ws.*1.
Proof.
  revert store. induction ws as [|[p c] ws IH]; intros store; simpl.
  - by rewrite union_empty_r_gset.
  - rewrite IH, dom_insert_L. apply set_eq. intros x.
    rewrite !elem_of_union, elem_of_singleton. tauto.
Qed.

Lemma foldl_insert_other (ws : list (string * string)) (store : gmap string string) p :
  p ∉ ws.*1 →
  foldl (fun fs pc => <[pc.1 := pc.2]> fs) store ws !! p = store !! p.
Proof.
  revert store. induction ws as [|[q c] ws IH]; intros store Hp; [reflexivity|].
  simpl in *. apply not_elem_of_cons in Hp as [Hne Hp].
  rewrite IH by done. by apply lookup_insert_ne.
Qed.

Lemma reports_paths {RT : Runtime} w info results snapshots ws :
  Forall2 (report_of w info results) snapshots ws →
  ws.*1 = map (fun f => output_file results (cluster_name_of f)) snapshots.
Proof.
  induction 1 as [|f r snapshots ws (d & rows & _ & _ & ->) _ IH]; [reflexivity|].
  by rewrite fmap_cons, IH.
Qed.

(** X10. After a run that ends normally the output paths are those of the
    snapshots of the listing, one per distinct cluster name, beside what was
    there before; every other path holds what it held. *)
Theorem output_files_of_run {RT : Runtime} w info results filenames :
  os_listdir w info = Ok filenames →
  outcome (process_all_clusters w info results) = Ok tt →
  ∀ store : gmap string string,
    dom (files_after (trace (process_all_clusters w info results)) store)
    = dom store ∪
      list_to_set (map (fun f => output_file results (cluster_name_of f))
                       (List.filter is_snapshot filenames)) ∧
    ∀ p, p ∉ map (fun f => output_file results (cluster_name_of f))
                 (List.filter is_snapshot filenames) →
         files_after (trace (process_all_clusters w info results)) store !! p
         = store !! p.
Proof.
  intros Hlist Hrun store.
  pose proof (run_reports w info results filenames Hlist Hrun) as HF.
  apply reports_paths in HF. rewrite files_after_written. split.
  - by rewrite foldl_insert_dom, HF.
  - intros p Hp. apply foldl_insert_other. by rewrite HF.
Qed.

Lemma output_files_of_run_witness :
  dom (files_after (trace (process_all_clusters (RT := Sample.runtime)
                             Sample.world_two "info_cache_20240101" "results"))
                   ∅)
  = {[ "results/cluster1-a_ingress.md"; "results/cluster2-b_ingress.md" ]}.
Proof.
  destruct (output_files_of_run (RT := Sample.runtime) Sample.world_two
              "info_cache_20240101" "results" _ eq_refl eq_refl ∅) as [Hdom _].
  rewrite Hdom. vm_compute. reflexivity.
Defined.

(** ** A run that fails in the first pass *)

Lemma foldM_prefix_trace {A S} (f : A → S → traced S) l1 l2 (acc acc' : S) :
  outcome (traced_foldM f l1 acc) = Ok acc' →
  trace (traced_foldM f (l1 ++ l2) acc) =
  trace (traced_foldM f l1 acc) ++ trace (traced_foldM f l2 acc').
Proof.
  revert acc. induction l1 as [|x l1 IH]; intros acc; simpl.
  - by intros [= <-].
  - intros (a & Ha & H)%traced_bind_outcome_ok.
    rewrite !(traced_bind_ok_eq _ _ a Ha). cbn [trace].
    by rewrite (IH a H), app_assoc.
Qed.

Lemma is_log_first_pass ev : is_log ev = true → is_first_pass ev = true.
Proof. by destruct ev. Qed.

Section FailedPass.
Context {RT : Runtime}.
Variable w : world.

Lemma process_file_first_pass info results f (S : gset string) :
  Forall (fun ev => is_first_pass ev = true) (trace (process_file w info results f S)).
Proof.
  unfold process_file. destruct (is_snapshot f); [|constructor].
  apply trace_bind_Forall; [apply trace_lift_Forall|]. intros d _.
  apply trace_bind_Forall.
  { eapply Forall_impl; [apply extract_ingress_info_logs | apply is_log_first_pass]. }
  intros rows _. unfold generate_markdown_table. trace_kinds.
Qed.

(** A file at which [process_file] raises, because its snapshot cannot be
    read or extracted or its report cannot be opened, leaves log lines
    only. *)
Lemma process_file_raise_logs info results f (S : gset string) e :
  outcome (process_file w info results f S) = Raise e →
  Forall (fun ev => is_log ev = true) (trace (process_file w info results f S)).
Proof.
  unfold process_file. destruct (is_snapshot f); [|discriminate].
  destruct (read_json_file w (os_path_join info f)) as [d|e']; [|constructor].
  rewrite lift_bind_ok.
  destruct (outcome (extract_ingress_info d)) as [rows|e'] eqn:Hex.
  - rewrite (traced_bind_ok_eq _ _ rows Hex). cbn [trace outcome].
    unfold generate_markdown_table.
    destruct (open_write w (output_file results (cluster_name_of f))) as [[]|e''];
      [discriminate|].
    intros _. cbn [trace]. rewrite app_nil_r. apply extract_ingress_info_logs.
  - rewrite (traced_bind_raise_eq _ _ e' Hex). intros _.
    apply extract_ingress_info_logs.
Qed.

End FailedPass.

(** X11. When the first pass stops at a snapshot because it cannot be read
    or parsed, or because one of its items makes the extractor raise, the run
    ends with that exception. The reports of the snapshots before it have
    been written and stay; nothing is written for the snapshot itself, whose
    report is not reached; and neither the verdict on the expected clusters
    nor anything of the summary is printed. *)
Theorem failed_pass_keeps_reports {RT : Runtime} w info results pre f post S e :
  dir_ready w results →
  os_listdir w info = Ok (pre ++ f :: post) →
  outcome (traced_foldM (process_file w info results) pre ∅) = Ok S →
  is_snapshot f = true →
  (read_json_file w (os_path_join info f) = Raise e ∨
   ∃ d, read_json_file w (os_path_join info f) = Ok d ∧
        outcome (extract_ingress_info d) = Raise e) →
  outcome (process_all_clusters w info results) = Raise e ∧
  created (trace (process_all_clusters w info results))
  = map cluster_name_of (List.filter is_snapshot pre) ∧
  Forall2 (report_of w info results) (List.filter is_snapshot pre)
          (written (trace (process_all_clusters w info results))) ∧
  Forall (fun ev => is_first_pass ev = true)
         (trace (process_all_clusters w info results)).
Proof.
  intros Hdir Hlist Hpre Hsnap Hfail.
  assert (outcome (process_file w info results f S) = Raise e) as Hf.
  { destruct Hfail as [Hread|(d & Hread & Hex)].
    - by apply process_file_read_raise.
    - by apply process_file_extract_raise with d. }
  split; [by apply first_pass_raise with pre f post S|].
  assert (trace (process_all_clusters w info results) =
          trace (ensure_dir w results) ++
          trace (traced_foldM (process_file w info results) pre ∅) ++
          trace (process_file w info results f S)) as Htrace.
  { unfold process_all_clusters.
    rewrite (traced_bind_ok_eq _ _ tt (ensure_dir_ready w results Hdir)).
    cbn [trace]. f_equal. rewrite Hlist, lift_bind_ok.
    assert (outcome (traced_foldM (process_file w info results) (pre ++ f :: post) ∅)
            = Raise e) as Hfold.
    { rewrite (foldM_prefix_ok _ pre (f :: post) ∅ S Hpre). simpl.
      by apply traced_bind_outcome_raise. }
    rewrite (traced_bind_raise_eq _ _ e Hfold). cbn [trace].
    rewrite (foldM_prefix_trace _ pre (f :: post) ∅ S Hpre). f_equal.
    simpl. by rewrite (traced_bind_raise_eq _ _ e Hf). }
  rewrite Htrace.
  destruct (quiet_trace _ (ensure_dir_quiet w results)) as (Hc1 & Hw1 & _).
  destruct (quiet_trace (trace (process_file w info results f S))) as (Hc2 & Hw2 & _).
  { eapply Forall_impl; [by apply process_file_raise_logs with e | apply is_log_quiet]. }
  apply first_pass_ok in Hpre as (_ & Hc & Hw & _).
  rewrite !created_app, !written_app, Hc1, Hw1, Hc2, Hw2, !app_nil_r.
  split_and!; [exact Hc | exact Hw |].
  apply Forall_app. split.
  - unfold ensure_dir. destruct (os_path_exists w results); [constructor|].
    trace_kinds.
  - apply Forall_app. split.
    + apply trace_foldM_Forall. intros x s. apply process_file_first_pass.
    + apply process_file_first_pass.
Qed.

(** A good snapshot, then one that is not JSON. *)
Lemma failed_pass_keeps_reports_witness :
  outcome (process_all_clusters (RT := Sample.runtime)
             (Sample.world_with (Ok ["a_ingress.json"; "b_ingress.json"])
                (fun path => if endswith path "a_ingress.json"
                             then Ok Sample.empty_snapshot else Ok "oops"))
             "in" "results")
  = Raise JSONDecodeError ∧
  created (trace (process_all_clusters (RT := Sample.runtime)
             (Sample.world_with (Ok ["a_ingress.json"; "b_ingress.json"])
                (fun path => if endswith path "a_ingress.json"
                             then Ok Sample.empty_snapshot else Ok "oops"))
             "in" "results"))
  = ["a"].
Proof.
  destruct (failed_pass_keeps_reports (RT := Sample.runtime)
              (Sample.world_with (Ok ["a_ingress.json"; "b_ingress.json"])
                 (fun path => if endswith path "a_ingress.json"
                              then Ok Sample.empty_snapshot else Ok "oops"))
              "in" "results" ["a_ingress.json"] "b_ingress.json" []
              {[ "a" ]} JSONDecodeError)
    as (Ho & Hc & _).
  - by right.
  - reflexivity.
  - vm_compute. reflexivity.
  - reflexivity.
  - left. vm_compute. reflexivity.
  - split; [exact Ho | exact Hc].
Defined.

(** ** The summary and the warnings of the first pass *)

Lemma hosts_warned_app t1 t2 :
  hosts_warned (t1 ++ t2) = hosts_warned t1 ++ hosts_warned t2.
Proof. apply omap_app. Qed.

Lemma issues_listed_app t1 t2 :
  issues_listed (t1 ++ t2) = issues_listed t1 ++ issues_listed t2.
Proof. apply omap_app. Qed.

Lemma hosts_warned_cons ev t :
  hosts_warned (ev :: t) =
  match ev with WarnHosts nm ns => (ns, nm) :: hosts_warned t | _ => hosts_warned t end.
Proof. by destruct ev. Qed.

Lemma issues_listed_cons ev t :
  issues_listed (ev :: t) =
  match ev with
  | PrintIssue _ ns nm _ => (ns, nm) :: issues_listed t
  | _ => issues_listed t
  end.
Proof. by destruct ev. Qed.

Lemma first_pass_no_issue t :
  Forall (fun ev => is_first_pass ev = true) t → issues_listed t = [].
Proof.
  induction 1 as [|ev t Hev _ IH]; [reflexivity|].
  rewrite issues_listed_cons, IH. by destruct ev.
Qed.

Lemma issues_no_warning t :
  Forall (fun ev => is_issue ev = true) t → hosts_warned t = [].
Proof.
  induction 1 as [|ev t Hev _ IH]; [reflexivity|].
  rewrite hosts_warned_cons, IH. by destruct ev.
Qed.

Lemma for_each_trace {A} (f : A → traced unit) (l : list A) :
  Forall (fun x => outcome (f x) = Ok tt) l →
  trace (for_each f l) = concat (map (fun x => trace (f x)) l).
Proof.
  unfold for_each. induction 1 as [|x l Hx _ IH]; [reflexivity|].
  simpl. rewrite (traced_bind_ok_eq _ _ tt Hx). cbn [trace]. by rewrite IH.
Qed.

Section Summary.
Context {RT : Runtime}.
Variable w : world.

(** An item is listed in the summary exactly when the extractor warned
    about its hosts. *)
Lemma summary_item_matches cluster_name item row :
  outcome (extract_item item) = Ok row →
  issues_listed (trace (summary_item cluster_name item)) =
  hosts_warned (trace (extract_item item)).
Proof.
  intros (ns & nm & h & a & P & Hmeta & Hh & Ha & HP & _)%extract_item_ok.
  rewrite (extract_item_run item ns nm h a P) by done.
  apply item_meta_ok in Hmeta as (md & Hmd & Hns & Hnm).
  unfold summary_item, item_warnings. rewrite Hmd, Hh.
  repeat progress rewrite ?Hns, ?Hnm, ?lift_bind_ok.
  cbn [trace].
  destruct (str_in "N/A" h || str_empty h), (str_empty a),
    (str_empty (ports_to_str P)); reflexivity.
Qed.

Lemma process_file_trace info results f (S S' : gset string) :
  is_snapshot f = true →
  outcome (process_file w info results f S) = Ok S' →
  ∃ d rows, read_json_file w (os_path_join info f) = Ok d ∧
    outcome (extract_ingress_info d) = Ok rows ∧
    trace (process_file w info results f S) =
    trace (extract_ingress_info d) ++
    [WriteFile (output_file results (cluster_name_of f))
               (markdown_content rows (cluster_name_of f));
     PrintCreated (cluster_name_of f)].
Proof.
  intros Hsnap. unfold process_file. rewrite Hsnap.
  destruct (read_json_file w (os_path_join info f)) as [d|e] eqn:Hread;
    [|discriminate].
  rewrite lift_bind_ok. intros H.
  apply traced_bind_ok_inv in H as (rows & Hrows & H & ->).
  unfold generate_markdown_table in *.
  destruct (open_write w (output_file results (cluster_name_of f))) as [[]|e];
    [|discriminate].
  rewrite lift_bind_ok in *. by exists d, rows.
Qed.

Lemma summary_file_matches info results f (S S' : gset string) :
  outcome (process_file w info results f S) = Ok S' →
  issues_listed (trace (summary_file w info f)) =
  hosts_warned (trace (process_file w info results f S)).
Proof.
  intros H. destruct (is_snapshot f) eqn:Hsnap.
  - apply (process_file_trace info results f S S' Hsnap) in H
      as (d & rows & Hread & Hrows & ->).
    unfold summary_file. rewrite Hsnap, Hread, lift_bind_ok.
    rewrite hosts_warned_app, !hosts_warned_cons. cbn [hosts_warned omap].
    rewrite app_nil_r.
    pose proof Hrows as (items & Hitems & HF)%extract_ingress_info_ok.
    rewrite (extract_ingress_info_trace d rows items Hrows Hitems).
    unfold doc_items in Hitems.
    apply result_bind_ok in Hitems as (v & Hv & Hiter).
    rewrite Hv, lift_bind_ok, Hiter, lift_bind_ok.
    rewrite for_each_trace.
    + clear -HF. induction HF as [|item row items rows Hitem _ IH]; [reflexivity|].
      simpl. rewrite issues_listed_app, hosts_warned_app, IH.
      by rewrite (summary_item_matches _ item row Hitem).
    + clear -HF. induction HF as [|item row items rows Hitem _ IH]; constructor;
        [by apply summary_item_ok with row | exact IH].
  - unfold process_file, summary_file. by rewrite Hsnap.
Qed.

Lemma summary_pass_matches info results filenames (S S' : gset string) :
  outcome (traced_foldM (process_file w info results) filenames S) = Ok S' →
  issues_listed (trace (for_each (summary_file w info) filenames)) =
  hosts_warned (trace (traced_foldM (process_file w info results) filenames S)).
Proof.
  intros H. rewrite for_each_trace.
  - revert S H. induction filenames as [|f fs IH]; intros S H; [reflexivity|].
    simpl in H. apply traced_bind_ok_inv in H as (S1 & HS1 & H & Ht).
    cbn [traced_foldM]. rewrite Ht. simpl.
    rewrite issues_listed_app, hosts_warned_app, (IH S1 H).
    by rewrite (summary_file_matches info results f S S1 HS1).
  - revert S H. induction filenames as [|f fs IH]; intros S H; [constructor|].
    simpl in H. apply traced_bind_outcome_ok in H as (S1 & HS1 & H).
    constructor; [by apply summary_file_ok with results S S1 | by apply IH with S1].
Qed.

(** The parts of the trace of a run that ends normally. *)
Lemma process_all_clusters_trace info results filenames :
  os_listdir w info = Ok filenames →
  outcome (process_all_clusters w info results) = Ok tt →
  ∃ S, outcome (traced_foldM (process_file w info results) filenames ∅) = Ok S ∧
    trace (process_all_clusters w info results) =
    trace (ensure_dir w results) ++
    trace (traced_foldM (process_file w info results) filenames ∅) ++
    verdict S :: PrintSummaryHeader ::
    trace (for_each (summary_file w info) filenames) ++ [PrintHinweis].
Proof.
  intros Hlist H. unfold process_all_clusters in *. rewrite Hlist in *.
  apply traced_bind_ok_inv in H as ([] & _ & H & ->).
  rewrite lift_bind_ok in *.
  apply traced_bind_ok_inv in H as (S & HS & H & ->).
  rewrite report_missed_verdict, emit_bind in *. cbn [trace outcome] in *.
  rewrite emit_bind, lift_bind_ok in *. cbn [trace outcome] in *.
  apply traced_bind_ok_inv in H as ([] & _ & _ & ->).
  exists S. split; [exact HS | reflexivity].
Qed.

End Summary.

(** X2. In a run that ends normally the summary of lines 129 to 140 lists,
    in the same order, the very items the first pass logged the
    missing-hosts warning for, and no others. *)
Theorem summary_matches_warnings {RT : Runtime} w info results filenames :
  os_listdir w info = Ok filenames →
  outcome (process_all_clusters w info results) = Ok tt →
  issues_listed (trace (process_all_clusters w info results)) =
  hosts_warned (trace (process_all_clusters w info results)).
Proof.
  intros Hlist Hrun.
  destruct (process_all_clusters_trace w info results filenames Hlist Hrun)
    as (S & HS & ->).
  assert (Forall (fun ev => is_first_pass ev = true) (trace (ensure_dir w results)))
    as Hdir.
  { unfold ensure_dir. destruct (os_path_exists w results); [constructor|].
    trace_kinds. }
  assert (Forall (fun ev => is_first_pass ev = true)
            (trace (traced_foldM (process_file w info results) filenames ∅)))
    as Hpass.
  { apply trace_foldM_Forall. intros x s. apply process_file_first_pass. }
  assert (Forall (fun ev => is_issue ev = true)
            (trace (for_each (summary_file w info) filenames))) as Hsum.
  { apply trace_foldM_Forall. intros x s. apply summary_file_issues. }
  rewrite !issues_listed_app, !hosts_warned_app.
  rewrite (issues_listed_cons (verdict S)), (hosts_warned_cons (verdict S)).
  rewrite (issues_listed_cons PrintSummaryHeader), (hosts_warned_cons PrintSummaryHeader).
  rewrite issues_listed_app, hosts_warned_app.
  rewrite (first_pass_no_issue _ Hdir), (first_pass_no_issue _ Hpass).
  rewrite (issues_no_warning _ Hsum).
  rewrite (summary_pass_matches w info results filenames ∅ S HS).
  assert (hosts_warned (trace (ensure_dir w results)) = []) as ->.
  { unfold ensure_dir. destruct (os_path_exists w results); [reflexivity|].
    by destruct (os_makedirs w results) as [[]|]. }
  unfold verdict. case_decide; simpl; by rewrite !app_nil_r.
Qed.

Lemma summary_matches_warnings_witness :
  issues_listed (trace (process_all_clusters (RT := Sample.runtime)
                          Sample.world_collide "info_cache_20240101" "results"))
  = [(JStr "default", JStr "web")] ∧
  hosts_warned (trace (process_all_clusters (RT := Sample.runtime)
                         Sample.world_collide "info_cache_20240101" "results"))
  = [(JStr "default", JStr "web")].
Proof.
  pose proof (summary_matches_warnings (RT := Sample.runtime) Sample.world_collide
                "info_cache_20240101" "results" _ eq_refl eq_refl) as H.
  split; [rewrite H|]; vm_compute; reflexivity.
Defined.

(** ** What a run reads *)

Lemma traced_bind_ext {A B} (m : traced A) (f g : A → traced B) :
  (∀ a, outcome m = Ok a → f a = g a) → m ≫= f = m ≫= g.
Proof.
  intros H. unfold mbind, traced_bind.
  destruct (outcome m) as [a|e]; [|reflexivity]. by rewrite (H a).
Qed.

Lemma traced_foldM_ext {A S} (f g : A → S → traced S) (l : list A) (acc : S) :
  (∀ x s, x ∈ l → f x s = g x s) → traced_foldM f l acc = traced_foldM g l acc.
Proof.
  revert acc. induction l as [|x l IH]; intros acc H; [reflexivity|].
  simpl. rewrite (H x acc) by by left.
  apply traced_bind_ext. intros acc' _.
  apply IH. intros y s Hy. apply H. by right.
Qed.

(** X13. Only the snapshots of the listing are opened for reading: two worlds
    that agree on the output directory, on the listing, on what can be
    written and on the text of the listed files that end with
    "_ingress.json" give the same run, whatever else their files hold. *)
Theorem only_snapshots_are_read {RT : Runtime} w1 w2 info results filenames :
  os_path_exists w1 results = os_path_exists w2 results →
  os_makedirs w1 results = os_makedirs w2 results →
  os_listdir w1 info = Ok filenames → os_listdir w2 info = Ok filenames →
  (∀ path, open_write w1 path = open_write w2 path) →
  (∀ f, f ∈ filenames → is_snapshot f = true →
        open_read w1 (os_path_join info f) = open_read w2 (os_path_join info f)) →
  process_all_clusters w1 info results = process_all_clusters w2 info results.
Proof.
  intros Hex Hmk Hl1 Hl2 Hwr Hrd.
  assert (∀ f (S : gset string), f ∈ filenames →
            process_file w1 info results f S = process_file w2 info results f S)
    as Hfile.
  { intros f S Hf. unfold process_file.
    destruct (is_snapshot f) eqn:Hsnap; [|reflexivity].
    unfold read_json_file, generate_markdown_table.
    rewrite (Hrd f Hf Hsnap). apply traced_bind_ext. intros d _.
    apply traced_bind_ext. intros rows _. by rewrite Hwr. }
  assert (∀ f, f ∈ filenames → summary_file w1 info f = summary_file w2 info f)
    as Hsum.
  { intros f Hf. unfold summary_file.
    destruct (is_snapshot f) eqn:Hsnap; [|reflexivity].
    unfold read_json_file. by rewrite (Hrd f Hf Hsnap). }
  unfold process_all_clusters, ensure_dir. rewrite Hex, Hmk, Hl1, Hl2.
  apply traced_bind_ext. intros _ _. rewrite !lift_bind_ok.
  rewrite (traced_foldM_ext (process_file w1 info results)
             (process_file w2 info results) filenames ∅)
    by (intros; by apply Hfile).
  apply traced_bind_ext. intros S _.
  apply traced_bind_ext. intros _ _.
  apply traced_bind_ext. intros _ _.
  unfold for_each.
  rewrite (traced_foldM_ext (fun x _ => summary_file w1 info x)
             (fun x _ => summary_file w2 info x) filenames tt)
    by (intros; by apply Hsum).
  reflexivity.
Qed.

(** What "notes.txt" holds does not matter. *)
Lemma only_snapshots_are_read_witness :
  process_all_clusters (RT := Sample.runtime) Sample.world_two "in" "results" =
  process_all_clusters (RT := Sample.runtime)
    (Sample.world_with
       (Ok ["cluster1-a_ingress.json"; "notes.txt"; "cluster2-b_ingress.json"])
       (fun path => if endswith path "notes.txt" then Raise PermissionError
                    else Ok Sample.empty_snapshot))
    "in" "results".
Proof.
  apply (only_snapshots_are_read (RT := Sample.runtime) _ _ "in" "results"
           ["cluster1-a_ingress.json"; "notes.txt"; "cluster2-b_ingress.json"]);
    try reflexivity.
  intros f Hf Hsnap.
  apply elem_of_cons in Hf as [->|Hf]; [reflexivity|].
  apply elem_of_cons in Hf as [->|Hf]; [discriminate Hsnap|].
  apply elem_of_cons in Hf as [->|Hf]; [reflexivity|].
  by apply elem_of_nil in Hf.
Defined.

(** ** An explicit null is not a missing key *)

(** X15. The defaults of lines 38 and 45 stand in for a key that is missing, not
    for a key that holds null: a null [spec], [status] or [loadBalancer]
    has no [get] and raises [AttributeError]; a null [rules] or [ingress]
    cannot be gone through and raises [TypeError]. *)
Theorem null_is_not_missing item :
  (has_entry "spec" JNull item → item_hosts item = Raise AttributeError) ∧
  (∀ spec, has_entry "spec" spec item → has_entry "rules" JNull spec →
           item_hosts item = Raise TypeError) ∧
  (has_entry "status" JNull item → item_address item = Raise AttributeError) ∧
  (∀ status, has_entry "status" status item →
             has_entry "loadBalancer" JNull status →
             item_address item = Raise AttributeError) ∧
  (∀ status lb, has_entry "status" status item →
                has_entry "loadBalancer" lb status →
                has_entry "ingress" JNull lb →
                item_address item = Raise TypeError).
Proof.
  split_and!.
  - intros H. unfold item_hosts, item_rules.
    by rewrite (py_get_has_entry _ _ _ _ H).
  - intros spec H1 H2. unfold item_hosts, item_rules.
    rewrite (py_get_has_entry _ _ _ _ H1). cbn [mbind result_bind].
    by rewrite (py_get_has_entry _ _ _ _ H2).
  - intros H. unfold item_address, item_lbs.
    by rewrite (py_get_has_entry _ _ _ _ H).
  - intros status H1 H2. unfold item_address, item_lbs.
    rewrite (py_get_has_entry _ _ _ _ H1). cbn [mbind result_bind].
    by rewrite (py_get_has_entry _ _ _ _ H2).
  - intros status lb H1 H2 H3. unfold item_address, item_lbs.
    rewrite (py_get_has_entry _ _ _ _ H1). cbn [mbind result_bind].
    rewrite (py_get_has_entry _ _ _ _ H2). cbn [mbind result_bind].
    by rewrite (py_get_has_entry _ _ _ _ H3).
Qed.

Lemma null_is_not_missing_witness :
  item_hosts (JObj [("spec", JObj [("rules", JNull)])]) = Raise TypeError ∧
  item_hosts (JObj [("spec", JObj [])]) = Ok "".
Proof.
  destruct (null_is_not_missing (JObj [("spec", JObj [("rules", JNull)])]))
    as (_ & Hrules & _).
  split; [|reflexivity].
  apply (Hrules (JObj [("rules", JNull)])); by eexists.
Defined.

(** ** A snapshot without items *)


